(** * airdrop_eligibility_scout.py: a shallow embedding

    The script [src/airdrop_eligibility_scout.py] is modelled function by
    function: [analyze_interactions], [score_address], [load_addresses],
    the per-address loop of [main], and the response handling of the
    explorer client ([ensure_requests], [fetch_balance], [fetch_txlist]).  Python strings are [String.string]
    over ASCII, Python ints are [Z], exceptions are an explicit error monad,
    and the decoded JSON fields of an explorer record are a small value type. *)

From Stdlib Require Import ZArith Lia Bool List String Ascii Permutation.
Import ListNotations.
Open Scope Z_scope.
Set Warnings "-register-all".

(* ------------------------------------------------------------------ *)
(** ** Python exceptions

    An exception is identified by its class; [SystemExit] carries its
    message, and the errors of the HTTP request and of reading a file are
    left as text. *)

Inductive exn :=
| AttributeError
| TypeError
| ValueError
| KeyError
| OverflowError
| ZeroDivisionError
| SystemExit (msg : string)
| RequestError (msg : string)
(** raised by [open(x)] or while reading its lines ([PermissionError],
    [UnicodeDecodeError], ...) *)
| ReadError (msg : string).

(** A computation that returns a value or raises. *)
Inductive Exc (A : Type) :=
| Ok (a : A)
| Raise (e : exn).
Arguments Ok {A} a.
Arguments Raise {A} e.

Definition bind {A B} (m : Exc A) (f : A -> Exc B) : Exc B :=
  match m with
  | Ok a => f a
  | Raise e => Raise e
  end.

Notation "x <- m ;; k" := (bind m (fun x => k))
  (at level 61, m at next level, right associativity).

(** [try: body except Exception: handler] *)
Definition try_except {A} (m : Exc A) (handler : A) : A :=
  match m with
  | Ok a => a
  | Raise _ => handler
  end.

(* ------------------------------------------------------------------ *)
(** ** Decoded JSON values of an explorer record *)

Inductive jval :=
| JNull
| JBool (b : bool)
| JInt (z : Z)
| JStr (s : string)
| JArr (l : list jval).

(** Python truthiness *)
Definition truthy (v : jval) : bool :=
  match v with
  | JNull => false
  | JBool b => b
  | JInt z => negb (z =? 0)
  | JStr s => negb (String.eqb s "")
  | JArr l => match l with [] => false | _ => true end
  end.

(** A transaction dict: [None] for a missing key. *)
Record tx := mk_tx {
  tx_to : option jval;
  tx_input : option jval;
  tx_timeStamp : option jval
}.

(** [t.get(k)] *)
Definition dict_get (f : option jval) : jval :=
  match f with Some v => v | None => JNull end.

(** [x or ""] *)
Definition or_empty (v : jval) : jval :=
  if truthy v then v else JStr "".

(* ------------------------------------------------------------------ *)
(** ** String methods over ASCII *)

Definition ascii_lower (c : ascii) : ascii :=
  let n := nat_of_ascii c in
  if (65 <=? n)%nat && (n <=? 90)%nat then ascii_of_nat (n + 32) else c.

(** [str.lower()] *)
Fixpoint str_lower (s : string) : string :=
  match s with
  | EmptyString => EmptyString
  | String c r => String (ascii_lower c) (str_lower r)
  end.

(** [str.isspace()] on one ASCII character: space, \t \n \v \f \r and
    the separators \x1c..\x1f. *)
Definition is_space (c : ascii) : bool :=
  let n := nat_of_ascii c in
  (n =? 32)%nat || ((9 <=? n)%nat && (n <=? 13)%nat)
  || ((28 <=? n)%nat && (n <=? 31)%nat).

Fixpoint lstrip (s : string) : string :=
  match s with
  | EmptyString => EmptyString
  | String c r => if is_space c then lstrip r else s
  end.

Fixpoint rstrip (s : string) : string :=
  match s with
  | EmptyString => EmptyString
  | String c r =>
      let r' := rstrip r in
      if String.eqb r' "" && is_space c then EmptyString else String c r'
  end.

(** [str.strip()] *)
Definition strip (s : string) : string := rstrip (lstrip s).

(** [value.lower()] : only a [str] has the method. *)
Definition py_lower (v : jval) : Exc string :=
  match v with
  | JStr s => Ok (str_lower s)
  | _ => Raise AttributeError
  end.

(** [len(value)] *)
Definition py_len (v : jval) : Exc Z :=
  match v with
  | JStr s => Ok (Z.of_nat (String.length s))
  | JArr l => Ok (Z.of_nat (List.length l))
  | _ => Raise TypeError
  end.

(* ------------------------------------------------------------------ *)
(** ** [int(x)] *)

Definition is_digit (c : ascii) : bool :=
  let n := nat_of_ascii c in (48 <=? n)%nat && (n <=? 57)%nat.

Definition digit_val (c : ascii) : Z := Z.of_nat (nat_of_ascii c) - 48.

(** Decimal digits with single underscores between them; [after_us] is
    true at the start and right after an underscore, where a digit must
    follow.  Returns the value and the number of digits read. *)
Fixpoint parse_dec (s : string) (acc : Z) (cnt : nat) (after_us : bool)
  : option (Z * nat) :=
  match s with
  | EmptyString => if after_us then None else Some (acc, cnt)
  | String c r =>
      if is_digit c then parse_dec r (acc * 10 + digit_val c) (S cnt) false
      else if Ascii.eqb c "_"%char && negb after_us
      then parse_dec r acc cnt true
      else None
  end.

(** Default [sys.get_int_max_str_digits()]. *)
Definition int_max_str_digits : nat := 4300.

(** [int(s)] for a [str] in base 10. *)
Definition py_int_str (s : string) : Exc Z :=
  let t := strip s in
  let '(sgn, body) :=
    match t with
    | String c r =>
        if Ascii.eqb c "-"%char then (-1, r)
        else if Ascii.eqb c "+"%char then (1, r)
        else (1, t)
    | EmptyString => (1, t)
    end in
  match parse_dec body 0 0 true with
  | None => Raise ValueError
  | Some (v, cnt) =>
      if (int_max_str_digits <? cnt)%nat then Raise ValueError
      else Ok (sgn * v)
  end.

(** [int(value)] *)
Definition py_int (v : jval) : Exc Z :=
  match v with
  | JStr s => py_int_str s
  | JInt z => Ok z
  | JBool b => Ok (if b then 1 else 0)
  | JNull | JArr _ => Raise TypeError
  end.

(** [int(t["timeStamp"])] *)
Definition timestamp_int (t : tx) : Exc Z :=
  match tx_timeStamp t with
  | None => Raise KeyError
  | Some v => py_int v
  end.

(* ------------------------------------------------------------------ *)
(** ** [int(a / b)] for Python ints [a], [b]

    [a / b] is true division: the exact quotient rounded once to the
    nearest IEEE double (ties to even), [OverflowError] when that double
    would be infinite.  [int] of the double truncates toward zero.  The
    rounded magnitude is [m * 2^e] with a 53-bit significand [m]; below the
    normal range the exponent is held at -1074. *)

Definition scaled (N D e : Z) : Z * Z :=
  if 0 <=? e then (N, D * 2 ^ e) else (N * 2 ^ (- e), D).

Definition round_exp (N D : Z) : Z :=
  let e0 := Z.log2 N - Z.log2 D - 53 in
  let '(n0, d0) := scaled N D e0 in
  let e1 := if 2 ^ 53 <=? n0 / d0 then e0 + 1 else e0 in
  Z.max e1 (-1074).

(** round half to even of [n / d] *)
Definition round_div (n d : Z) : Z :=
  let q := n / d in
  let r := n mod d in
  if (d <? 2 * r) || ((2 * r =? d) && Z.odd q) then q + 1 else q.

Definition int_true_div (a b : Z) : Exc Z :=
  if b =? 0 then Raise ZeroDivisionError
  else if a =? 0 then Ok 0
  else
    let N := Z.abs a in
    let D := Z.abs b in
    let e := round_exp N D in
    let '(n, d) := scaled N D e in
    let m := round_div n d in
    if (0 <=? e) && (2 ^ 1024 <=? m * 2 ^ e) then Raise OverflowError
    else
      let t := if 0 <=? e then m * 2 ^ e else m / 2 ^ (- e) in
      Ok (if xorb (a <? 0) (b <? 0) then - t else t).

(* ------------------------------------------------------------------ *)
(** ** [analyze_interactions] *)

(** [(t.get("to") or "").lower()] *)
Definition to_field (t : tx) : Exc string :=
  py_lower (or_empty (dict_get (tx_to t))).

(** [len((t.get("input") or ""))] *)
Definition input_len (t : tx) : Exc Z :=
  py_len (or_empty (dict_get (tx_input t))).

(** [contracts.add(to)] on a set kept as a duplicate-free list *)
Definition set_add (x : string) (s : list string) : list string :=
  if existsb (String.eqb x) s then s else s ++ [x].

(** The [for t in txs] loop; [and] evaluates [len(...)] only when the
    destination starts with ["0x"]. *)
Fixpoint scan_contracts (txs : list tx) (contracts : list string)
  : Exc (list string) :=
  match txs with
  | [] => Ok contracts
  | t :: rest =>
      to <- to_field t ;;
      if String.prefix "0x" to then
        n <- input_len t ;;
        scan_contracts rest (if 2 <? n then set_add to contracts else contracts)
      else scan_contracts rest contracts
  end.

(** The [try] block: [max(1, int((t1 - t0) / 86400))], 0 on any exception. *)
Definition span_days (txs : list tx) (dflt : tx) : Z :=
  try_except
    (t0 <- timestamp_int (List.hd dflt txs) ;;
     t1 <- timestamp_int (List.last txs dflt) ;;
     q <- int_true_div (t1 - t0) 86400 ;;
     Ok (Z.max 1 q))
    0.

Definition empty_tx : tx := mk_tx None None None.

Definition analyze_interactions (txs : list tx) : Exc (Z * Z * Z) :=
  let tx_count := Z.of_nat (List.length txs) in
  r <- (if negb (tx_count =? 0) then
          contracts <- scan_contracts txs [] ;;
          Ok (contracts, span_days txs empty_tx)
        else Ok ([], 0)) ;;
  let '(contracts, days) := r in
  Ok (tx_count, Z.of_nat (List.length contracts), days).

Definition stx (to input ts : string) : tx :=
  mk_tx (Some (JStr to)) (Some (JStr input)) (Some (JStr ts)).


(* ------------------------------------------------------------------ *)
(** ** [score_address] and the batch loop of [main]

    The explorer client is a pair of fallible functions of the address;
    [float] is any type with Python's [>=] on floats. *)

Section Scoring.

Variable Float : Type.
Variable float_ge : Float -> Float -> bool.
Variable fetch_balance : string -> Exc Float.
Variable fetch_txlist : string -> Exc (list tx).

Record thresholds := mk_thresholds {
  min_balance : Float;
  min_tx : Z;
  min_contracts : Z;
  min_days : Z
}.

(** The result dict of [score_address]. *)
Record result := mk_result {
  r_address : string;
  r_balance : Float;
  r_tx_count : Z;
  r_contracts : Z;
  r_active_days : Z;
  r_eligible : bool
}.

Definition score_address (addr : string) (th : thresholds) : Exc result :=
  bal <- fetch_balance addr ;;
  txs <- fetch_txlist addr ;;
  m <- analyze_interactions txs ;;
  let '(tx_count, uniq, days) := m in
  let eligible :=
    float_ge bal (min_balance th) && (min_tx th <=? tx_count)
    && (min_contracts th <=? uniq) && (min_days th <=? days) in
  Ok (mk_result addr bal tx_count uniq days eligible).

(** An entry of [res]: a score dict, or [{"address", "error", "eligible": False}].
    The error entry is [str(e)] of the caught exception [e]; the record keeps
    [e] itself. *)
Inductive batch_rec :=
| Scored (r : result)
| Failed (address : string) (error : exn).

Definition rec_address (b : batch_rec) : string :=
  match b with Scored r => r_address r | Failed a _ => a end.

Definition rec_eligible (b : batch_rec) : bool :=
  match b with Scored r => r_eligible r | Failed _ _ => false end.

(** [except Exception] catches everything but [SystemExit]. *)
Definition is_exception (e : exn) : bool :=
  match e with SystemExit _ => false | _ => true end.

Definition batch_step (th : thresholds) (res : Exc (list batch_rec)) (a : string)
  : Exc (list batch_rec) :=
  r <- res ;;
  match score_address a th with
  | Ok sc => Ok (r ++ [Scored sc])
  | Raise e => if is_exception e then Ok (r ++ [Failed a e]) else Raise e
  end.

(** [for a in addrs: try: res.append(score_address(...)) except Exception as e: ...] *)
Definition main_loop (th : thresholds) (addrs : list string) : Exc (list batch_rec) :=
  fold_left (batch_step th) addrs (Ok []).

(** The record the loop appends for one address. *)
Definition batch_record (th : thresholds) (a : string) : batch_rec :=
  match score_address a th with
  | Ok sc => Scored sc
  | Raise e => Failed a e
  end.

End Scoring.

Arguments mk_thresholds {Float}.
Arguments mk_result {Float}.

(* ------------------------------------------------------------------ *)
(** ** [load_addresses] *)

Definition is_hex (c : ascii) : bool :=
  let n := nat_of_ascii c in
  is_digit c || ((65 <=? n)%nat && (n <=? 70)%nat) || ((97 <=? n)%nat && (n <=? 102)%nat).

Definition is_lower_hex (c : ascii) : bool :=
  let n := nat_of_ascii c in is_digit c || ((97 <=? n)%nat && (n <=? 102)%nat).

Fixpoint all_chars (p : ascii -> bool) (s : string) : bool :=
  match s with
  | EmptyString => true
  | String c r => p c && all_chars p r
  end.

(** [s] is 40 hex digits, optionally followed by one ["\n"], which [$]
    also accepts. *)
Fixpoint hex40_end (k : nat) (s : string) : bool :=
  match k, s with
  | O, EmptyString => true
  | O, String c EmptyString => Ascii.eqb c "010"%char
  | S k', String c r => is_hex c && hex40_end k' r
  | _, _ => false
  end.

(** [ADDR_RE.match(s)] with [ADDR_RE = ^0x[a-fA-F0-9]{40}$] *)
Definition addr_re_match (s : string) : bool :=
  match s with
  | String c1 (String c2 h) => Ascii.eqb c1 "0"%char && Ascii.eqb c2 "x"%char && hex40_end 40 h
  | _ => false
  end.

(** [a[2:]] *)
Definition drop2 (s : string) : string :=
  match s with
  | String _ (String _ r) => r
  | _ => EmptyString
  end.

(** [os.path.isfile(x)], then [open(x)] and its lines: [None] when [x] is
    not a file, [Some (Ok lines)] when it is read, [Some (Raise e)] when
    opening or reading it raises [e]. *)
Definition file_system := string -> option (Exc (list string)).

(** The stripped non-blank lines of a file, appended to [addrs]. *)
Definition add_lines (lines addrs : list string) : list string :=
  fold_left (fun acc line => let s := strip line in
               if String.eqb s "" then acc else acc ++ [s]) lines addrs.

(** One pass of [for x in path_or_list]; an error of [open]/reading
    propagates. *)
Definition read_step (fs : file_system) (acc : Exc (list string)) (x : string)
  : Exc (list string) :=
  addrs <- acc ;;
  match fs x with
  | Some contents => lines <- contents ;; Ok (add_lines lines addrs)
  | None => Ok (addrs ++ [x])
  end.

Definition read_inputs (fs : file_system) (path_or_list : list string)
  : Exc (list string) :=
  fold_left (read_step fs) path_or_list (Ok []).

(** [out.append("0x" + a[2:].lower())] for each [a.strip()] that matches *)
Definition normalize (addrs : list string) : list string :=
  fold_left
    (fun out a => let a := strip a in
       if addr_re_match a then out ++ [("0x" ++ str_lower (drop2 a))%string] else out)
    addrs [].

(** [list(dict.fromkeys(out))]: a key already present keeps its place. *)
Definition dict_fromkeys (l : list string) : list string :=
  fold_left (fun d k => set_add k d) l [].

Definition load_addresses (fs : file_system) (path_or_list : list string)
  : Exc (list string) :=
  addrs <- read_inputs fs path_or_list ;;
  let out := normalize addrs in
  match out with
  | [] => Raise (SystemExit "no valid EVM addresses provided")
  | _ => Ok (dict_fromkeys out)
  end.

Definition no_files : file_system := fun _ => None.


(** ** Helpers for the statements *)

(** What one argument of [load_addresses] contributes to [addrs]: the
    stripped non-blank lines of a file, or the argument itself. *)
Definition input_candidates (fs : file_system) (x : string) : Exc (list string) :=
  match fs x with
  | Some contents => lines <- contents ;; Ok (add_lines lines [])
  | None => Ok [x]
  end.

(** Some transaction adds [x] to [contracts]: its lower-cased destination
    starts with ["0x"] and its input is longer than 2. *)
Definition contract_hit (txs : list tx) (x : string) : Prop :=
  exists t, In t txs /\ to_field t = Ok x /\ String.prefix "0x" x = true /\
    exists n, input_len t = Ok n /\ 2 < n.

(** [str] or missing / [None]: the field types of an explorer record *)
Definition str_or_absent (f : option jval) : bool :=
  match f with
  | None | Some JNull | Some (JStr _) => true
  | _ => false
  end.

(** A record with string fields and an integer (JSON number) timestamp. *)
Definition itx (ts : Z) : tx :=
  mk_tx (Some (JStr "0xa")) (Some (JStr "0x")) (Some (JInt ts)).

(** [>=] on balances modelled as integers, for concrete runs. *)
Definition zge (a b : Z) : bool := b <=? a.

(** The message of [ensure_requests] when the [requests] module is missing. *)
Definition no_requests : exn :=
  SystemExit "requests module is not available. Install with: pip install requests".

(** A balance fetch that fails for one address. *)
Definition flaky_balance (a : string) : Exc Z :=
  if String.eqb a "0x01" then Raise (RequestError "timeout") else Ok 1.

(** [^0x[0-9a-f]{40}$] without the trailing-newline allowance of [$]. *)
Definition lower_addr_ok (s : string) : bool :=
  match s with
  | String c1 (String c2 h) =>
      Ascii.eqb c1 "0"%char && Ascii.eqb c2 "x"%char &&
      (String.length h =? 40)%nat && all_chars is_lower_hex h
  | _ => false
  end.

Definition addr_valid (a : string) : bool := addr_re_match (strip a).

(* ------------------------------------------------------------------ *)
(** ** The explorer client: [ensure_requests], [get], [fetch_balance],
    [fetch_txlist]

    A decoded response is a dict with optional ["status"] and ["result"]
    keys.  A JSON array result is a list of transaction dicts ([RList]);
    any other result is a scalar.  An array of non-dict values and JSON
    floats are outside the model.  The query parameters (address, action,
    optional API key) go into the request functions of the address. *)

Inductive scalar :=
| SNull
| SBool (b : bool)
| SInt (z : Z)
| SStr (s : string).

Definition scalar_jval (v : scalar) : jval :=
  match v with
  | SNull => JNull
  | SBool b => JBool b
  | SInt z => JInt z
  | SStr s => JStr s
  end.

Inductive result_val :=
| RList (l : list tx)
| RScalar (v : scalar).

Record response := mk_response {
  resp_status : option scalar;
  resp_result : option result_val
}.

(** [data.get("status") == "1"]: only the string ["1"] is equal. *)
Definition status_is_1 (st : option scalar) : bool :=
  match st with
  | Some (SStr s) => String.eqb s "1"
  | _ => false
  end.

(** The body of [fetch_txlist] after [get]. *)
Definition txlist_of_response (data : response) : list tx :=
  if status_is_1 (resp_status data) then
    match resp_result data with
    | Some (RList l) => l
    | _ => []
    end
  else [].

(** [data.get("result", "0")] *)
Definition result_or_zero (data : response) : result_val :=
  match resp_result data with
  | Some r => r
  | None => RScalar (SStr "0")
  end.

(** [int(...)] of a result value *)
Definition result_int (r : result_val) : Exc Z :=
  match r with
  | RList _ => Raise TypeError
  | RScalar v => py_int (scalar_jval v)
  end.

(** [EXPLORERS[chain]["decimals"]]: 18 on every configured chain. *)
Definition chain_decimals : Z := 18.

Section Explorer.

Variable Float : Type.
(** [wei_to_unit(wei, decimals)], i.e. [float(wei) / float(10**decimals)]:
    any conversion, which may raise (float of a huge int overflows). *)
Variable wei_to_unit : Z -> Z -> Exc Float.
(** [requests is not None] *)
Variable requests_available : bool.
(** [requests.get(...)], [raise_for_status()] and [.json()] of the balance
    and txlist queries for an address *)
Variable http_balance : string -> Exc response.
Variable http_txlist : string -> Exc response.

Definition ensure_requests : Exc unit :=
  if requests_available then Ok tt else Raise no_requests.

Definition fetch_balance (addr : string) : Exc Float :=
  data <- (_ <- ensure_requests ;; http_balance addr) ;;
  val <- result_int (result_or_zero data) ;;
  wei_to_unit val chain_decimals.

Definition fetch_txlist (addr : string) : Exc (list tx) :=
  data <- (_ <- ensure_requests ;; http_txlist addr) ;;
  Ok (txlist_of_response data).

End Explorer.

(** A character [int()] can accept somewhere in its argument: a digit,
    whitespace, an underscore or a sign. *)
Definition int_char (c : ascii) : bool :=
  is_digit c || is_space c || Ascii.eqb c "_"%char || Ascii.eqb c "+"%char
  || Ascii.eqb c "-"%char.

(** A transaction the [for t in txs] loop gets through: a [str]
    destination, and a sized input when that destination starts with
    ["0x"]. *)
Definition tx_ok (t : tx) : Prop :=
  exists to, to_field t = Ok to /\
    (String.prefix "0x" to = true -> exists n, input_len t = Ok n).

(** The fields [analyze_interactions] reads from every transaction but the
    first and the last. *)
Definition tx_fields (t : tx) : option jval * option jval := (tx_to t, tx_input t).

(** A wei conversion to thousandths of a unit, for concrete runs with
    integer balances. *)
Definition wei_to_milli (wei decimals : Z) : Exc Z := Ok (wei * 1000 / 10 ^ decimals).

(** Explorer answers: a balance of 0.25 units, the answer for an address
    without transactions, and an error answer. *)
Definition balance_response : response :=
  mk_response (Some (SStr "1")) (Some (RScalar (SStr "250000000000000000"))).

Definition no_tx_response : response :=
  mk_response (Some (SStr "0")) (Some (RScalar (SStr "No transactions found"))).

Definition error_response : response :=
  mk_response (Some (SStr "0")) (Some (RScalar (SStr "Invalid API Key"))).

(* ================================================================== *)
(** * Properties *)

(** ** Examples *)

Example analyze_same_destination_example : analyze_interactions
  [stx "0xAAA" "0x1234" "1000"; stx "0xAAA" "0xabcd" "1000"] = Ok (2, 1, 1).
Proof. vm_compute. reflexivity. Qed.
Example analyze_empty_input_example : analyze_interactions [stx "0xAAA" "0x" "0"] = Ok (1, 0, 1).
Proof. vm_compute. reflexivity. Qed.
Example analyze_ten_days_example : analyze_interactions [stx "0xAAA" "0x" "0"; stx "0xb" "0x" "864000"] = Ok (2, 0, 10).
Proof. vm_compute. reflexivity. Qed.
Example analyze_bad_timestamp_example : analyze_interactions [stx "0xAAA" "0x" "abc"] = Ok (1, 0, 0).
Proof. vm_compute. reflexivity. Qed.

Example load_addresses_example : load_addresses no_files
  ["0xABCDEFabcdef0123456789abcdefABCDEF012345"%string; "junk"%string;
   " 0xabcdefabcdef0123456789abcdefabcdef012345 "%string]
  = Ok ["0xabcdefabcdef0123456789abcdefabcdef012345"%string].
Proof. vm_compute. reflexivity. Qed.


(** ** The contract set *)

Lemma set_add_In x y s : In x (set_add y s) <-> x = y \/ In x s.
Proof.
  unfold set_add. destruct (existsb (String.eqb y) s) eqn:E.
  - apply existsb_exists in E as [z [Hz Hyz]].
    apply String.eqb_eq in Hyz; subst z.
    split; [tauto|]. intros [->|H]; assumption.
  - rewrite in_app_iff. simpl. intuition.
Qed.

Lemma set_add_NoDup y s : NoDup s -> NoDup (set_add y s).
Proof.
  intros Hs. unfold set_add. destruct (existsb (String.eqb y) s) eqn:E; [assumption|].
  apply NoDup_app; [assumption| |].
  { constructor; [intros []|constructor]. }
  intros x Hx [Hyx|[]]; subst x.
  assert (existsb (String.eqb y) s = true) as E'
    by (apply existsb_exists; exists y; split; [assumption|apply String.eqb_refl]).
  congruence.
Qed.

Lemma set_add_length y s : (List.length (set_add y s) <= S (List.length s))%nat.
Proof.
  unfold set_add. destruct (existsb _ _); [lia|].
  rewrite length_app. simpl. lia.
Qed.

Lemma scan_contracts_length txs acc cs :
  scan_contracts txs acc = Ok cs ->
  (List.length cs <= List.length acc + List.length txs)%nat.
Proof.
  revert acc. induction txs as [|t rest IH]; intros acc H; simpl in H.
  - inversion H; subst. lia.
  - destruct (to_field t) as [to|e]; simpl in H; [|discriminate].
    destruct (String.prefix "0x" to).
    + destruct (input_len t) as [n|e]; simpl in H; [|discriminate].
      apply IH in H. simpl.
      destruct (2 <? n); [pose proof (set_add_length to acc)|]; lia.
    + apply IH in H. simpl. lia.
Qed.

Lemma contract_hit_cons t rest x :
  contract_hit (t :: rest) x <->
  (to_field t = Ok x /\ String.prefix "0x" x = true /\
   exists n, input_len t = Ok n /\ 2 < n) \/ contract_hit rest x.
Proof.
  unfold contract_hit. split.
  - intros [t' [[<-|Ht'] R]]; [left; exact R|right; exists t'; split; assumption].
  - intros [R|[t' [Ht' R]]]; [exists t; split; [left; reflexivity|exact R]|].
    exists t'. split; [right|]; assumption.
Qed.

Lemma scan_contracts_set txs acc cs :
  scan_contracts txs acc = Ok cs -> NoDup acc ->
  NoDup cs /\ (forall x, In x cs <-> In x acc \/ contract_hit txs x).
Proof.
  revert acc. induction txs as [|t rest IH]; intros acc H Hnd; simpl in H.
  - inversion H; subst. split; [assumption|].
    intros x. unfold contract_hit. split; [tauto|].
    intros [Hx|[t [[] _]]]; assumption.
  - destruct (to_field t) as [to|e] eqn:Eto; simpl in H; [|discriminate].
    destruct (String.prefix "0x" to) eqn:Epre.
    + destruct (input_len t) as [n|e] eqn:Elen; simpl in H; [|discriminate].
      destruct (2 <? n) eqn:Elt.
      * apply Z.ltb_lt in Elt.
        apply IH in H as [Hcs Hin]; [|apply set_add_NoDup; assumption].
        split; [assumption|]. intros x. rewrite Hin, set_add_In, contract_hit_cons.
        split.
        -- intros [[->|Hx]|Hh]; [right; left; eauto|left; assumption|right; right; assumption].
        -- intros [Hx|[[Hto _]|Hh]]; [left; right; assumption| |right; assumption].
           left; left. congruence.
      * apply Z.ltb_ge in Elt.
        apply IH in H as [Hcs Hin]; [|assumption].
        split; [assumption|]. intros x. rewrite Hin, contract_hit_cons.
        split.
        -- intros [Hx|Hh]; [left|right; right]; assumption.
        -- intros [Hx|[[Hto [_ [n' [Hn Hlt]]]]|Hh]]; [left; assumption| |right; assumption].
           exfalso. rewrite Elen in Hn. inversion Hn. lia.
    + apply IH in H as [Hcs Hin]; [|assumption].
      split; [assumption|]. intros x. rewrite Hin, contract_hit_cons.
      split.
      * intros [Hx|Hh]; [left|right; right]; assumption.
      * intros [Hx|[[Hto [Hp _]]|Hh]]; [left; assumption| |right; assumption].
        exfalso. rewrite Eto in Hto. inversion Hto; subst. congruence.
Qed.

(** ** The float quotient [int(x / 86400)] *)

Lemma log2_86400 : Z.log2 86400 = 16.
Proof. reflexivity. Qed.

Lemma round_exp_le N D :
  round_exp N D <= Z.max (Z.log2 N - Z.log2 D - 52) (-1074).
Proof.
  unfold round_exp. destruct (scaled N D _) as [n0 d0].
  destruct (2 ^ 53 <=? n0 / d0); lia.
Qed.

Lemma round_div_bounds n d :
  0 < d -> n / d <= round_div n d <= n / d + 1.
Proof.
  intros Hd. unfold round_div.
  destruct (_ || _); lia.
Qed.

(** Rounding [N * 2^E / 86400] to an integer never crosses a multiple of
    [2^E] that the exact quotient does not reach, once [2^E >= 2^16]. *)
Lemma round_div_pow_div N E :
  0 <= N -> 16 <= E -> round_div (N * 2 ^ E) 86400 / 2 ^ E = N / 86400.
Proof.
  intros HN HE.
  set (P := 2 ^ E).
  assert (HP : 65536 <= P) by
    (unfold P; change 65536 with (2 ^ 16); apply Z.pow_le_mono_r; lia).
  pose proof (Z.div_mod N 86400 ltac:(lia)) as HNk.
  pose proof (Z.mod_pos_bound N 86400 ltac:(lia)) as Hs.
  set (k := N / 86400) in *. set (s := N mod 86400) in *.
  pose proof (Z.div_mod (N * P) 86400 ltac:(lia)) as Hq.
  pose proof (Z.mod_pos_bound (N * P) 86400 ltac:(lia)) as Hr.
  set (q := N * P / 86400) in *. set (r := N * P mod 86400) in *.
  assert (HX : N * P = 86400 * (k * P) + s * P) by (rewrite HNk at 1; ring).
  assert (HY : 0 <= s * P <= 86399 * P) by nia.
  assert (Hk : 0 <= k) by (apply Z.div_pos; lia).
  set (X := k * P) in *. set (Y := s * P) in *.
  assert (Hlo : X <= q) by lia.
  assert (Hhi : q < X + P) by lia.
  assert (Hgoal : forall m, X <= m < X + P -> m / P = k).
  { intros m Hm. symmetry. apply Z.div_unique with (r := m - X); [lia|].
    unfold X. ring. }
  unfold round_div. fold q. fold r.
  destruct ((86400 <? 2 * r) || ((2 * r =? 86400) && Z.odd q)) eqn:Eup.
  - apply Hgoal. split; [lia|].
    assert (Hup : 43200 <= r).
    { apply orb_true_iff in Eup as [E1|E1];
        [apply Z.ltb_lt in E1|apply andb_true_iff in E1 as [E1 _]; apply Z.eqb_eq in E1];
        lia. }
    lia.
  - apply Hgoal. lia.
Qed.

Lemma int_true_div_exact a :
  0 <= a < 2 ^ 53 -> int_true_div a 86400 = Ok (a / 86400).
Proof.
  intros Ha. unfold int_true_div.
  replace (86400 =? 0) with false by reflexivity.
  destruct (Z.eqb_spec a 0) as [->|Ha0]; [reflexivity|].
  rewrite (Z.abs_eq a) by lia. change (Z.abs 86400) with 86400.
  assert (He : round_exp a 86400 <= -16).
  { pose proof (round_exp_le a 86400) as H. rewrite log2_86400 in H.
    assert (Z.log2 a < 53) by (apply Z.log2_lt_pow2; lia). lia. }
  remember (round_exp a 86400) as e eqn:Ee. clear Ee.
  unfold scaled. replace (0 <=? e) with false by (symmetry; apply Z.leb_gt; lia).
  cbn zeta iota beta. replace (false && _) with false by reflexivity.
  replace (xorb (a <? 0) (86400 <? 0)) with false
    by (rewrite (proj2 (Z.ltb_ge a 0)) by lia; reflexivity).
  f_equal. apply round_div_pow_div; lia.
Qed.

Lemma round_exp_lower N : Z.log2 N - 69 <= round_exp N 86400.
Proof.
  unfold round_exp. rewrite log2_86400. destruct (scaled _ _ _) as [n0 d0].
  destruct (2 ^ 53 <=? n0 / d0); lia.
Qed.

Lemma round_exp_norm N :
  0 < N -> 0 <= round_exp N 86400 ->
  2 ^ 52 <= N / (86400 * 2 ^ round_exp N 86400) < 2 ^ 53.
Proof.
  intros HN. pose proof (Z.log2_spec N HN) as [HL1 HL2].
  pose proof (Z.log2_nonneg N) as HL0.
  unfold round_exp. rewrite log2_86400.
  set (L := Z.log2 N) in *.
  unfold scaled. destruct (0 <=? L - 16 - 53) eqn:E0.
  - apply Z.leb_le in E0.
    set (e0 := L - 16 - 53) in *.
    assert (HP : 0 < 2 ^ e0) by (apply Z.pow_pos_nonneg; lia).
    assert (HL : 2 ^ L = 2 ^ 69 * 2 ^ e0)
      by (rewrite <- Z.pow_add_r by lia; f_equal; unfold e0; lia).
    assert (HL' : 2 ^ Z.succ L = 2 ^ 70 * 2 ^ e0)
      by (rewrite <- Z.pow_add_r by lia; f_equal; unfold e0; lia).
    set (X := N / (86400 * 2 ^ e0)).
    assert (HX1 : 2 ^ 52 <= X).
    { apply Z.div_le_lower_bound; [lia|]. nia. }
    assert (HX2 : X < 2 ^ 54).
    { apply Z.div_lt_upper_bound; [lia|]. nia. }
    destruct (2 ^ 53 <=? X) eqn:Eb.
    + apply Z.leb_le in Eb. rewrite Z.max_l by lia. intros _.
      rewrite Z.pow_add_r by lia.
      replace (86400 * (2 ^ e0 * 2 ^ 1)) with (86400 * 2 ^ e0 * 2) by ring.
      rewrite <- Z.div_div by lia. fold X. split.
      * apply Z.div_le_lower_bound; lia.
      * apply Z.div_lt_upper_bound; lia.
    + apply Z.leb_gt in Eb. rewrite Z.max_l by lia. intros _. fold X. lia.
  - apply Z.leb_gt in E0.
    destruct (2 ^ 53 <=? N * 2 ^ (- (L - 16 - 53)) / 86400) eqn:Eb;
      [|rewrite Z.max_l by lia; lia].
    rewrite Z.max_l by lia. intros He.
    assert (HL : L = 68) by lia. rewrite HL in *.
    replace (- (68 - 16 - 53)) with 1 in Eb by lia.
    replace (68 - 16 - 53 + 1) with 0 by lia.
    change (2 ^ 1) with 2 in Eb. change (2 ^ 0) with 1. rewrite Z.mul_1_r.
    apply Z.leb_le in Eb.
    assert (2 ^ 53 * 86400 <= N * 2).
    { pose proof (Z.mul_div_le (N * 2) 86400 ltac:(lia)). lia. }
    change (2 ^ Z.succ 68) with (2 ^ 69) in HL2.
    split; [apply Z.div_le_lower_bound|apply Z.div_lt_upper_bound]; lia.
Qed.

Lemma int_true_div_86400_unfold a :
  a <> 0 ->
  int_true_div a 86400 =
  (let N := Z.abs a in let e := round_exp N 86400 in
   let '(n, d) := scaled N 86400 e in
   let m := round_div n d in
   if (0 <=? e) && (2 ^ 1024 <=? m * 2 ^ e) then Raise OverflowError
   else
     let t := if 0 <=? e then m * 2 ^ e else m / 2 ^ (- e) in
     Ok (if xorb (a <? 0) (86400 <? 0) then - t else t)).
Proof.
  intros Ha. unfold int_true_div. replace (86400 =? 0) with false by reflexivity.
  replace (a =? 0) with false by (symmetry; apply Z.eqb_neq; exact Ha). reflexivity.
Qed.

Lemma log2_large N : 2 ^ 1039 <= N -> 1039 <= Z.log2 N.
Proof.
  intros H. rewrite <- (Z.log2_pow2 1039) by lia. apply Z.log2_le_mono. exact H.
Qed.

Lemma int_true_div_overflow a :
  86400 * (2 ^ 1024 - 2 ^ 970) <= Z.abs a -> int_true_div a 86400 = Raise OverflowError.
Proof.
  intros Ha. rewrite int_true_div_86400_unfold by lia. cbv zeta.
  set (N := Z.abs a) in *.
  assert (HN : 0 < N) by lia.
  assert (He : 970 <= round_exp N 86400).
  { pose proof (round_exp_lower N). pose proof (log2_large N ltac:(lia)). lia. }
  pose proof (round_exp_norm N HN ltac:(lia)) as Hq.
  remember (round_exp N 86400) as e eqn:Ee. clear Ee.
  unfold scaled. replace (0 <=? e) with true by (symmetry; apply Z.leb_le; lia).
  replace (2 ^ 1024 <=? round_div N (86400 * 2 ^ e) * 2 ^ e) with true; [reflexivity|].
  symmetry. apply Z.leb_le.
  assert (HP : 0 < 2 ^ e) by (apply Z.pow_pos_nonneg; lia).
  pose proof (Z.div_mod N (86400 * 2 ^ e) ltac:(lia)) as HNq.
  pose proof (Z.mod_pos_bound N (86400 * 2 ^ e) ltac:(lia)) as Hr.
  pose proof (round_div_bounds N (86400 * 2 ^ e) ltac:(lia)) as Hm.
  set (q := N / (86400 * 2 ^ e)) in *. set (r := N mod (86400 * 2 ^ e)) in *.
  destruct (Z.lt_trichotomy e 971) as [Hlt|[->|Hgt]].
  - assert (e = 970) as -> by lia. exfalso. lia.
  - assert (Hq1 : q = 2 ^ 53 - 1) by lia.
    assert (Hr1 : 86400 * 2 ^ 971 <= 2 * r) by lia.
    unfold round_div. fold q. fold r. rewrite Hq1.
    destruct (Z.ltb_spec (86400 * 2 ^ 971) (2 * r)).
    + rewrite orb_true_l. cbv iota. lia.
    + replace (2 * r =? 86400 * 2 ^ 971) with true by (symmetry; apply Z.eqb_eq; lia).
      rewrite orb_false_l, andb_true_l.
      replace (Z.odd (2 ^ 53 - 1)) with true by reflexivity. cbv iota. lia.
  - assert (HPe : 2 ^ 972 <= 2 ^ e) by (apply Z.pow_le_mono_r; lia).
    assert (2 ^ 52 * 2 ^ 972 <= round_div N (86400 * 2 ^ e) * 2 ^ e)
      by (apply Z.mul_le_mono_nonneg; lia).
    lia.
Qed.

(** [int(a / 86400)] overflows exactly when [|a| / 86400] reaches
    [2^1024 - 2^970], halfway between the largest double and [2^1024]. *)
Lemma int_true_div_no_overflow a :
  Z.abs a < 86400 * (2 ^ 1024 - 2 ^ 970) -> exists q, int_true_div a 86400 = Ok q.
Proof.
  intros Ha. destruct (Z.eq_dec a 0) as [->|Ha0]; [eexists; reflexivity|].
  rewrite int_true_div_86400_unfold by exact Ha0. cbv zeta.
  set (N := Z.abs a) in *.
  assert (HN : 0 < N) by lia.
  remember (round_exp N 86400) as e eqn:Ee.
  unfold scaled. destruct (0 <=? e) eqn:E0; cbn zeta iota beta; [|eexists; reflexivity].
  apply Z.leb_le in E0.
  pose proof (round_exp_norm N HN ltac:(lia)) as Hq. rewrite <- Ee in Hq. clear Ee.
  replace (2 ^ 1024 <=? round_div N (86400 * 2 ^ e) * 2 ^ e) with false;
    [eexists; reflexivity|].
  symmetry. apply Z.leb_gt.
  assert (HP : 0 < 2 ^ e) by (apply Z.pow_pos_nonneg; lia).
  pose proof (Z.div_mod N (86400 * 2 ^ e) ltac:(lia)) as HNq.
  pose proof (Z.mod_pos_bound N (86400 * 2 ^ e) ltac:(lia)) as Hr.
  pose proof (round_div_bounds N (86400 * 2 ^ e) ltac:(lia)) as Hm.
  set (q := N / (86400 * 2 ^ e)) in *. set (r := N mod (86400 * 2 ^ e)) in *.
  destruct (Z.lt_trichotomy e 971) as [Hlt|[->|Hgt]].
  - assert (HPe : 2 ^ e <= 2 ^ 970) by (apply Z.pow_le_mono_r; lia).
    assert (round_div N (86400 * 2 ^ e) * 2 ^ e <= 2 ^ 53 * 2 ^ 970)
      by (apply Z.mul_le_mono_nonneg; lia).
    lia.
  - assert (Hm1 : round_div N (86400 * 2 ^ 971) <= 2 ^ 53 - 1).
    { unfold round_div. fold q. fold r.
      destruct (Z.eq_dec q (2 ^ 53 - 1)) as [Hq1|Hq1].
      - assert (Hr1 : 2 * r < 86400 * 2 ^ 971) by lia.
        replace (86400 * 2 ^ 971 <? 2 * r) with false by (symmetry; apply Z.ltb_ge; lia).
        replace (2 * r =? 86400 * 2 ^ 971) with false by (symmetry; apply Z.eqb_neq; lia).
        rewrite orb_false_l, andb_false_l. cbv iota. lia.
      - destruct (_ || _); lia. }
    lia.
  - exfalso.
    assert (HPe : 2 ^ 972 <= 2 ^ e) by (apply Z.pow_le_mono_r; lia).
    assert (86400 * 2 ^ 972 * 2 ^ 52 <= 86400 * 2 ^ e * q)
      by (apply Z.mul_le_mono_nonneg; lia).
    lia.
Qed.

(** ** The span in days and the shape of [analyze_interactions] *)

Lemma last_cons_default (x : tx) l d d' : List.last (x :: l) d = List.last (x :: l) d'.
Proof.
  revert x. induction l as [|y l IH]; intros x; [reflexivity|].
  change (List.last (y :: l) d = List.last (y :: l) d'). apply IH.
Qed.

Lemma span_days_parse_error first rest :
  (exists e, timestamp_int first = Raise e) \/
  (exists e, timestamp_int (List.last (first :: rest) first) = Raise e) ->
  span_days (first :: rest) empty_tx = 0.
Proof.
  unfold span_days, try_except. simpl List.hd.
  rewrite (last_cons_default first rest empty_tx first).
  intros [[e He]|[e He]]; rewrite He; simpl; [reflexivity|].
  destruct (timestamp_int first); reflexivity.
Qed.

Lemma span_days_parsed first rest t0 t1 :
  timestamp_int first = Ok t0 ->
  timestamp_int (List.last (first :: rest) first) = Ok t1 ->
  span_days (first :: rest) empty_tx = try_except (q <- int_true_div (t1 - t0) 86400 ;; Ok (Z.max 1 q)) 0.
Proof.
  intros H0 H1. unfold span_days. simpl List.hd.
  rewrite (last_cons_default first rest empty_tx first), H0, H1. reflexivity.
Qed.

Lemma analyze_ok_inv txs n u d :
  analyze_interactions txs = Ok (n, u, d) ->
  n = Z.of_nat (List.length txs) /\
  (txs = [] -> u = 0 /\ d = 0) /\
  (txs <> [] -> exists cs, scan_contracts txs [] = Ok cs /\
                 u = Z.of_nat (List.length cs) /\ d = span_days txs empty_tx).
Proof.
  unfold analyze_interactions. destruct txs as [|t rest].
  - simpl. intros H. inversion H; subst.
    split; [reflexivity|]. split; [intros _; split; reflexivity|].
    intros Hc. exfalso. apply Hc. reflexivity.
  - replace (negb (Z.of_nat (List.length (t :: rest)) =? 0)) with true
      by (symmetry; apply negb_true_iff, Z.eqb_neq; simpl List.length; lia).
    destruct (scan_contracts (t :: rest) []) as [cs|e] eqn:E; simpl; [|discriminate].
    intros H. inversion H; subst.
    split; [reflexivity|]. split; [discriminate|].
    intros _. exists cs. repeat split; reflexivity.
Qed.

Lemma int_true_div_nonpos a q :
  a <= 0 -> int_true_div a 86400 = Ok q -> q <= 0.
Proof.
  intros Ha. unfold int_true_div.
  replace (86400 =? 0) with false by reflexivity.
  destruct (Z.eqb_spec a 0) as [_|Ha0]; [intros H; injection H as <-; lia|].
  change (Z.abs 86400) with 86400. change (86400 <? 0) with false.
  replace (a <? 0) with true by (symmetry; apply Z.ltb_lt; lia).
  cbn [xorb].
  remember (round_exp (Z.abs a) 86400) as e eqn:Ee. clear Ee.
  unfold scaled. destruct (0 <=? e) eqn:E0; cbv beta iota zeta.
  - apply Z.leb_le in E0.
    assert (HP : 0 < 2 ^ e) by (apply Z.pow_pos_nonneg; lia).
    assert (Hm : 0 <= round_div (Z.abs a) (86400 * 2 ^ e)).
    { pose proof (round_div_bounds (Z.abs a) (86400 * 2 ^ e) ltac:(lia)) as B.
      assert (0 <= Z.abs a / (86400 * 2 ^ e)) by (apply Z.div_pos; lia).
      lia. }
    destruct (_ && _); [discriminate|].
    intros H. assert (Hq : - (round_div (Z.abs a) (86400 * 2 ^ e) * 2 ^ e) = q)
      by congruence. subst q. nia.
  - assert (HP : 0 < 2 ^ (- e)) by (apply Z.pow_pos_nonneg; lia).
    assert (Hm : 0 <= round_div (Z.abs a * 2 ^ (- e)) 86400).
    { pose proof (round_div_bounds (Z.abs a * 2 ^ (- e)) 86400 ltac:(lia)) as B.
      assert (0 <= Z.abs a * 2 ^ (- e) / 86400) by (apply Z.div_pos; nia).
      lia. }
    assert (0 <= round_div (Z.abs a * 2 ^ (- e)) 86400 / 2 ^ (- e))
      by (apply Z.div_pos; lia).
    cbn [andb]. intros Hres.
    assert (Hq : - (round_div (Z.abs a * 2 ^ (- e)) 86400 / 2 ^ (- e)) = q)
      by congruence. subst q. lia.
Qed.

Lemma span_days_ge1 first rest t0 t1 :
  timestamp_int first = Ok t0 ->
  timestamp_int (List.last (first :: rest) first) = Ok t1 ->
  Z.abs (t1 - t0) < 86400 * (2 ^ 1024 - 2 ^ 970) ->
  1 <= span_days (first :: rest) empty_tx.
Proof.
  intros H0 H1 Hb. rewrite (span_days_parsed first rest t0 t1 H0 H1).
  destruct (int_true_div_no_overflow (t1 - t0) Hb) as [q Hq]. rewrite Hq.
  simpl. lia.
Qed.

Lemma span_days_overflow first rest t0 t1 :
  timestamp_int first = Ok t0 ->
  timestamp_int (List.last (first :: rest) first) = Ok t1 ->
  86400 * (2 ^ 1024 - 2 ^ 970) <= Z.abs (t1 - t0) ->
  span_days (first :: rest) empty_tx = 0.
Proof.
  intros H0 H1 Hb. rewrite (span_days_parsed first rest t0 t1 H0 H1).
  rewrite (int_true_div_overflow (t1 - t0) Hb). reflexivity.
Qed.

Lemma scan_contracts_total txs acc :
  (forall t, In t txs -> str_or_absent (tx_to t) = true /\ str_or_absent (tx_input t) = true) ->
  exists cs, scan_contracts txs acc = Ok cs.
Proof.
  revert acc. induction txs as [|t rest IH]; intros acc Hall; simpl; [eauto|].
  destruct (Hall t (or_introl eq_refl)) as [Hto Hin].
  assert (Hrest : forall t', In t' rest ->
            str_or_absent (tx_to t') = true /\ str_or_absent (tx_input t') = true)
    by (intros t' Ht'; apply Hall; right; exact Ht').
  assert (Eto : exists to, to_field t = Ok to).
  { unfold to_field, dict_get, or_empty.
    destruct (tx_to t) as [[]|]; try discriminate; simpl;
      try (eexists; reflexivity).
    destruct (negb _); eexists; reflexivity. }
  assert (Ein : exists n, input_len t = Ok n).
  { unfold input_len, dict_get, or_empty.
    destruct (tx_input t) as [[]|]; try discriminate; simpl;
      try (eexists; reflexivity).
    destruct (negb _); eexists; reflexivity. }
  destruct Eto as [to Eto]. destruct Ein as [n Ein].
  rewrite Eto. simpl. destruct (String.prefix "0x" to).
  - rewrite Ein. simpl. apply IH. exact Hrest.
  - apply IH. exact Hrest.
Qed.

(* ------------------------------------------------------------------ *)
(** ** Claims on [analyze_interactions] *)

(** C8: on the empty transaction list, [analyze_interactions] returns
    [(0, 0, 0)]. *)
Theorem analyze_empty : analyze_interactions [] = Ok (0, 0, 0).
Proof. reflexivity. Qed.

(** C9: whenever [analyze_interactions] returns, the number of unique
    contracts is at most the transaction count. *)
Theorem analyze_unique_le_count txs n u d :
  analyze_interactions txs = Ok (n, u, d) -> u <= n.
Proof.
  intros H. apply analyze_ok_inv in H as [-> [Hnil Hcons]].
  destruct txs as [|t rest].
  - destruct (Hnil eq_refl) as [-> _]. simpl. lia.
  - destruct (Hcons ltac:(discriminate)) as [cs [Hs [-> _]]].
    apply scan_contracts_length in Hs.
    change (List.length (@nil string)) with 0%nat in Hs. lia.
Qed.

Lemma analyze_unique_le_count_witness :
  analyze_interactions [stx "0xAAA" "0x1234" "1000"; stx "0xAAA" "0xabcd" "1000"] = Ok (2, 1, 1)
  /\ 1 <= 2.
Proof.
  split; [vm_compute; reflexivity|].
  apply (analyze_unique_le_count
           [stx "0xAAA" "0x1234" "1000"; stx "0xAAA" "0xabcd" "1000"] 2 1 1).
  vm_compute. reflexivity.
Defined.

(** C2, as stated: the set of lower-cased destinations of every transaction
    with an input longer than 2 characters.  A contract creation (empty
    [to]) with call data is such a transaction, yet the code does not count
    it: its destination does not start with ["0x"]. *)
Lemma analyze_unique_contracts_claim_fails :
  ~ (forall txs n u d, analyze_interactions txs = Ok (n, u, d) ->
       exists cs, NoDup cs /\ Z.of_nat (List.length cs) = u /\
         forall x, In x cs <->
           exists t, In t txs /\ to_field t = Ok x /\
             exists l, input_len t = Ok l /\ 2 < l).
Proof.
  intros H.
  destruct (H [stx "" "0x6080" "0"] 1 0 1 ltac:(vm_compute; reflexivity))
    as [cs [_ [Hlen Hin]]].
  destruct cs as [|c cs]; [|simpl in Hlen; lia].
  apply (proj2 (Hin ""%string)).
  exists (stx "" "0x6080" "0"). split; [left; reflexivity|].
  split; [reflexivity|]. exists 6. split; [reflexivity|lia].
Qed.

(** C2 (amended): the unique-contract count is the size of the set of
    lower-cased destinations that start with ["0x"], taken over the
    transactions whose input is longer than 2 characters. *)
Theorem analyze_unique_contracts txs n u d :
  analyze_interactions txs = Ok (n, u, d) ->
  exists cs, NoDup cs /\ Z.of_nat (List.length cs) = u /\
    forall x, In x cs <-> contract_hit txs x.
Proof.
  intros H. apply analyze_ok_inv in H as [_ [Hnil Hcons]].
  destruct txs as [|t rest].
  - destruct (Hnil eq_refl) as [-> _]. exists []. split; [constructor|].
    split; [reflexivity|]. intros x. unfold contract_hit. split; [intros []|].
    intros [t [[] _]].
  - destruct (Hcons ltac:(discriminate)) as [cs [Hs [-> _]]].
    apply scan_contracts_set in Hs as [Hnd Hin]; [|constructor].
    exists cs. split; [assumption|]. split; [reflexivity|].
    intros x. rewrite Hin. split; [intros [[]|Hh]; assumption|intros Hh; right; exact Hh].
Qed.

Lemma analyze_unique_contracts_witness :
  exists cs, NoDup cs /\ Z.of_nat (List.length cs) = 1 /\
    forall x, In x cs <->
      contract_hit [stx "0xAAA" "0x1234" "1000"; stx "0xAAA" "0xabcd" "1000"] x.
Proof.
  apply (analyze_unique_contracts
           [stx "0xAAA" "0x1234" "1000"; stx "0xAAA" "0xabcd" "1000"] 2 1 1).
  vm_compute. reflexivity.
Defined.

Lemma analyze_cons_ok first rest cs :
  scan_contracts (first :: rest) [] = Ok cs ->
  analyze_interactions (first :: rest) =
  Ok (Z.of_nat (List.length (first :: rest)), Z.of_nat (List.length cs),
      span_days (first :: rest) empty_tx).
Proof.
  intros Hs. unfold analyze_interactions.
  replace (negb (Z.of_nat (List.length (first :: rest)) =? 0)) with true
    by (symmetry; apply negb_true_iff, Z.eqb_neq; simpl List.length; lia).
  rewrite Hs. reflexivity.
Qed.

(** C7: on records whose [to] and [input] are strings or missing,
    [analyze_interactions] returns (it raises nothing), with the length of
    the list as count; a timestamp that does not parse makes the span 0. *)
Theorem analyze_total txs :
  (forall t, In t txs -> str_or_absent (tx_to t) = true /\ str_or_absent (tx_input t) = true) ->
  exists u d, analyze_interactions txs = Ok (Z.of_nat (List.length txs), u, d) /\
    forall first rest, txs = first :: rest ->
      (exists e, timestamp_int first = Raise e) \/
      (exists e, timestamp_int (List.last txs first) = Raise e) -> d = 0.
Proof.
  intros Hall. destruct txs as [|first rest].
  - exists 0, 0. split; [reflexivity|]. intros f r Hc. discriminate.
  - destruct (scan_contracts_total (first :: rest) [] Hall) as [cs Hs].
    exists (Z.of_nat (List.length cs)), (span_days (first :: rest) empty_tx).
    split; [apply analyze_cons_ok; exact Hs|].
    intros f r Heq Hfail. injection Heq as <- <-.
    apply span_days_parse_error. exact Hfail.
Qed.

Lemma analyze_total_witness :
  exists u d, analyze_interactions [mk_tx None (Some JNull) (Some (JStr "x"))]
              = Ok (1, u, d) /\
    forall first rest, [mk_tx None (Some JNull) (Some (JStr "x"))] = first :: rest ->
      (exists e, timestamp_int first = Raise e) \/
      (exists e, timestamp_int (List.last [mk_tx None (Some JNull) (Some (JStr "x"))] first)
                 = Raise e) -> d = 0.
Proof.
  apply (analyze_total [mk_tx None (Some JNull) (Some (JStr "x"))]).
  intros t [<-|[]]. split; reflexivity.
Defined.

(** C1, as stated: a non-empty list whose timestamp does not parse gets
    [active_days = 0]. *)
Lemma analyze_days_claim_fails :
  analyze_interactions [stx "0xa" "0x" "abc"] = Ok (1, 0, 0).
Proof. vm_compute. reflexivity. Qed.

(** C1 (amended): the span is 0 for the empty list; for a non-empty list it
    is 0 when the first or last timestamp does not parse; when both parse
    it is at least 1 if [|last - first| < 86400 * (2^1024 - 2^970)], and 0
    beyond, where the float quotient overflows and the [OverflowError] is
    caught as well. *)
Theorem analyze_days_positive txs n u d :
  analyze_interactions txs = Ok (n, u, d) ->
  (txs = [] -> d = 0) /\
  (forall first rest, txs = first :: rest ->
     (exists e, timestamp_int first = Raise e) \/
     (exists e, timestamp_int (List.last txs first) = Raise e) -> d = 0) /\
  (forall first rest t0 t1, txs = first :: rest ->
     timestamp_int first = Ok t0 -> timestamp_int (List.last txs first) = Ok t1 ->
     Z.abs (t1 - t0) < 86400 * (2 ^ 1024 - 2 ^ 970) -> 1 <= d) /\
  (forall first rest t0 t1, txs = first :: rest ->
     timestamp_int first = Ok t0 -> timestamp_int (List.last txs first) = Ok t1 ->
     86400 * (2 ^ 1024 - 2 ^ 970) <= Z.abs (t1 - t0) -> d = 0).
Proof.
  intros H. apply analyze_ok_inv in H as [_ [Hnil Hcons]].
  split; [intros E; exact (proj2 (Hnil E))|]. split; [|split].
  - intros first rest -> Hfail.
    destruct (Hcons ltac:(discriminate)) as [cs [_ [_ ->]]].
    apply span_days_parse_error. exact Hfail.
  - intros first rest t0 t1 -> H0 H1 Hb.
    destruct (Hcons ltac:(discriminate)) as [cs [_ [_ ->]]].
    apply (span_days_ge1 first rest t0 t1); assumption.
  - intros first rest t0 t1 -> H0 H1 Hb.
    destruct (Hcons ltac:(discriminate)) as [cs [_ [_ ->]]].
    apply (span_days_overflow first rest t0 t1); assumption.
Qed.

Lemma analyze_days_positive_witness :
  analyze_interactions [itx 0; itx 86400] = Ok (2, 0, 1) /\ 1 <= 1.
Proof.
  split; [vm_compute; reflexivity|].
  destruct (analyze_days_positive [itx 0; itx 86400] 2 0 1 ltac:(vm_compute; reflexivity))
    as [_ [_ [H _]]].
  apply (H (itx 0) [itx 86400] 0 86400); vm_compute; reflexivity.
Defined.

(** C10, as stated: timestamps that parse but lie [10^400] seconds apart
    overflow the float division and give [active_days = 0]. *)
Lemma analyze_days_unordered_claim_fails :
  timestamp_int (itx (10 ^ 400)) = Ok (10 ^ 400) /\
  timestamp_int (itx 0) = Ok 0 /\
  analyze_interactions [itx (10 ^ 400); itx 0] = Ok (2, 0, 0).
Proof. split; [reflexivity|]. split; [reflexivity|]. vm_compute. reflexivity. Qed.

(** C10 (amended): when the first and last timestamps parse and differ by
    less than [86400 * (2^1024 - 2^970)], the span is at least 1 in either
    order, and exactly 1 when the last is not later than the first; at a
    larger difference the float quotient overflows and the span is 0. *)
Theorem analyze_days_unordered first rest n u d t0 t1 :
  analyze_interactions (first :: rest) = Ok (n, u, d) ->
  timestamp_int first = Ok t0 ->
  timestamp_int (List.last (first :: rest) first) = Ok t1 ->
  (Z.abs (t1 - t0) < 86400 * (2 ^ 1024 - 2 ^ 970) -> 1 <= d /\ (t1 <= t0 -> d = 1)) /\
  (86400 * (2 ^ 1024 - 2 ^ 970) <= Z.abs (t1 - t0) -> d = 0).
Proof.
  intros H H0 H1. apply analyze_ok_inv in H as [_ [_ Hcons]].
  destruct (Hcons ltac:(discriminate)) as [cs [_ [_ ->]]].
  split; [intros Hb; split|intros Hb; apply (span_days_overflow first rest t0 t1); assumption].
  - apply (span_days_ge1 first rest t0 t1); assumption.
  - intros Hle. rewrite (span_days_parsed first rest t0 t1 H0 H1).
    destruct (int_true_div_no_overflow (t1 - t0) Hb) as [q Hq]. rewrite Hq.
    apply int_true_div_nonpos in Hq; [|lia]. simpl. lia.
Qed.

Lemma analyze_days_unordered_witness :
  (Z.abs (0 - 86400) < 86400 * (2 ^ 1024 - 2 ^ 970) -> 1 <= 1 /\ (0 <= 86400 -> 1 = 1)) /\
  (86400 * (2 ^ 1024 - 2 ^ 970) <= Z.abs (0 - 86400) -> 1 = 0).
Proof.
  apply (analyze_days_unordered (itx 86400) [itx 0] 2 0 1 86400 0);
    [vm_compute; reflexivity|reflexivity|reflexivity].
Defined.

(** C3, as stated: with [first <= last], the span is not always
    [max(1, floor((last - first) / 86400))]: at a difference of
    [86400 * 2^38 - 1] seconds the float quotient rounds up to [2^38]. *)
Lemma analyze_days_exact_claim_fails :
  ~ (forall first rest n u d t0 t1,
       analyze_interactions (first :: rest) = Ok (n, u, d) ->
       timestamp_int first = Ok t0 ->
       timestamp_int (List.last (first :: rest) first) = Ok t1 ->
       t0 <= t1 -> d = Z.max 1 ((t1 - t0) / 86400)).
Proof.
  intros H.
  specialize (H (stx "0xa" "0x" "0") [stx "0xa" "0x" "23749451159961599"]
                2 0 (2 ^ 38) 0 23749451159961599).
  assert (Hd : 2 ^ 38 = Z.max 1 ((23749451159961599 - 0) / 86400)).
  { apply H; [vm_compute; reflexivity|vm_compute; reflexivity|vm_compute; reflexivity|lia]. }
  vm_compute in Hd. discriminate.
Qed.

(** C3 (amended): when the first and last timestamps parse and
    [0 <= last - first < 2^53], the span is
    [max(1, floor((last - first) / 86400))] in exact integer arithmetic. *)
Theorem analyze_days_exact first rest n u d t0 t1 :
  analyze_interactions (first :: rest) = Ok (n, u, d) ->
  timestamp_int first = Ok t0 ->
  timestamp_int (List.last (first :: rest) first) = Ok t1 ->
  0 <= t1 - t0 < 2 ^ 53 ->
  d = Z.max 1 ((t1 - t0) / 86400).
Proof.
  intros H H0 H1 Hb. apply analyze_ok_inv in H as [_ [_ Hcons]].
  destruct (Hcons ltac:(discriminate)) as [cs [_ [_ ->]]].
  rewrite (span_days_parsed first rest t0 t1 H0 H1).
  rewrite (int_true_div_exact (t1 - t0) Hb). reflexivity.
Qed.

Lemma analyze_days_exact_witness :
  10 = Z.max 1 ((864000 - 0) / 86400).
Proof.
  apply (analyze_days_exact (stx "0xAAA" "0x" "0") [stx "0xb" "0x" "864000"] 2 0 10 0 864000);
    [vm_compute; reflexivity|reflexivity|reflexivity|lia].
Defined.

(* ------------------------------------------------------------------ *)
(** ** Claims on [score_address] and the batch loop *)

Section ScoringProofs.

Variable Float : Type.
Variable float_ge : Float -> Float -> bool.
Variable fetch_balance : string -> Exc Float.
Variable fetch_txlist : string -> Exc (list tx).

Local Abbreviation score := (score_address Float float_ge fetch_balance fetch_txlist).
Local Abbreviation run := (main_loop Float float_ge fetch_balance fetch_txlist).

(** C4: once the balance and the transaction list are fetched, the result
    record carries the address, the balance and the three metrics of
    [analyze_interactions], and its verdict is the conjunction of the four
    threshold comparisons. *)
Theorem score_address_verdict addr th bal txs n u d :
  fetch_balance addr = Ok bal -> fetch_txlist addr = Ok txs ->
  analyze_interactions txs = Ok (n, u, d) ->
  exists r, score addr th = Ok r /\
    r_address _ r = addr /\ r_balance _ r = bal /\ r_tx_count _ r = n /\
    r_contracts _ r = u /\ r_active_days _ r = d /\
    (r_eligible _ r = true <->
       float_ge bal (min_balance _ th) = true /\ min_tx _ th <= n /\
       min_contracts _ th <= u /\ min_days _ th <= d).
Proof.
  intros Hb Ht Ha. unfold score_address. rewrite Hb, Ht. simpl. rewrite Ha. simpl.
  eexists. split; [reflexivity|]. simpl.
  repeat split; try reflexivity;
    repeat (match goal with H : _ && _ = true |- _ => apply andb_true_iff in H as [? ?] end);
    try assumption;
    repeat (match goal with H : (_ <=? _) = true |- _ => apply Z.leb_le in H end);
    try assumption.
  intros [H1 [H2 [H3 H4]]].
  rewrite H1, (proj2 (Z.leb_le _ _) H2), (proj2 (Z.leb_le _ _) H3), (proj2 (Z.leb_le _ _) H4).
  reflexivity.
Qed.

Lemma score_address_addr addr th r :
  score addr th = Ok r -> r_address _ r = addr.
Proof.
  unfold score_address. destruct (fetch_balance addr) as [bal|e]; simpl; [|discriminate].
  destruct (fetch_txlist addr) as [txs|e]; simpl; [|discriminate].
  destruct (analyze_interactions txs) as [[[n u] d]|]; simpl; [|discriminate].
  intros H. injection H as <-. reflexivity.
Qed.

Lemma main_loop_acc th addrs acc :
  (forall a, In a addrs -> forall e, score a th = Raise e -> is_exception e = true) ->
  fold_left (batch_step Float float_ge fetch_balance fetch_txlist th) addrs (Ok acc)
  = Ok (acc ++ map (batch_record Float float_ge fetch_balance fetch_txlist th) addrs).
Proof.
  revert acc. induction addrs as [|a rest IH]; intros acc Hall.
  - simpl. rewrite app_nil_r. reflexivity.
  - cbn [fold_left map]. unfold batch_step at 2. cbn [bind].
    unfold batch_record at 1.
    destruct (score a th) as [sc|e] eqn:Es.
    + rewrite IH by (intros a' Ha'; apply Hall; right; exact Ha').
      rewrite <- app_assoc. reflexivity.
    + rewrite (Hall a (or_introl eq_refl) e Es).
      rewrite IH by (intros a' Ha'; apply Hall; right; exact Ha').
      rewrite <- app_assoc. reflexivity.
Qed.

(** C5 (amended): when no address raises [SystemExit] (which [except
    Exception] does not catch), the loop yields one record per address, in
    input order: the score of the address, or, when the score raised [e],
    an error record with the address, [e] (whose [str(e)] is the error
    text) and a false verdict. *)
Theorem main_loop_per_address th addrs :
  (forall a, In a addrs -> forall e, score a th = Raise e -> is_exception e = true) ->
  exists res, run th addrs = Ok res /\ List.length res = List.length addrs /\
    Forall2 (fun a b => rec_address _ b = a /\
               match score a th with
               | Ok sc => b = Scored _ sc
               | Raise e => b = Failed _ a e /\ rec_eligible _ b = false
               end) addrs res.
Proof.
  intros Hall. exists (map (batch_record Float float_ge fetch_balance fetch_txlist th) addrs). split.
  - unfold main_loop. rewrite (main_loop_acc th addrs [] Hall). reflexivity.
  - split; [apply length_map|].
    clear Hall. induction addrs as [|a rest IH]; simpl; constructor; [|exact IH].
    unfold batch_record. destruct (score a th) as [sc|e] eqn:Es.
    + split; [simpl; apply (score_address_addr a th sc Es)|reflexivity].
    + split; [reflexivity|]. split; reflexivity.
Qed.

End ScoringProofs.

Lemma score_address_verdict_witness :
  exists r, score_address Z zge (fun _ => Ok 1) (fun _ => Ok [stx "0xAAA" "0x1234" "1000"])
              "0x01" (mk_thresholds 0 1 1 1) = Ok r /\ r_eligible _ r = true.
Proof.
  destruct (score_address_verdict Z zge (fun _ => Ok 1)
              (fun _ => Ok [stx "0xAAA" "0x1234" "1000"]) "0x01" (mk_thresholds 0 1 1 1)
              1 [stx "0xAAA" "0x1234" "1000"] 1 1 1 eq_refl eq_refl
              ltac:(vm_compute; reflexivity))
    as [r [Hr [_ [_ [_ [_ [_ Hiff]]]]]]].
  exists r. split; [exact Hr|]. apply Hiff. simpl. repeat split; lia.
Defined.

(** C5, as stated: the [SystemExit] raised by [ensure_requests] inside the
    fetch is not caught by [except Exception]; the batch stops and no
    record is produced. *)
Lemma main_loop_claim_fails :
  main_loop Z zge (fun _ => Raise no_requests) (fun _ => Ok [])
    (mk_thresholds 0 0 0 0) ["0x01"%string; "0x02"%string] = Raise no_requests.
Proof. reflexivity. Qed.

Lemma main_loop_per_address_witness :
  exists res, main_loop Z zge flaky_balance (fun _ => Ok [])
                (mk_thresholds 0 0 0 0) ["0x01"%string; "0x02"%string] = Ok res /\
              List.length res = 2%nat.
Proof.
  destruct (main_loop_per_address Z zge flaky_balance (fun _ => Ok [])
              (mk_thresholds 0 0 0 0) ["0x01"%string; "0x02"%string])
    as [res [Hres [Hlen _]]].
  - intros a _ e. unfold score_address, flaky_balance.
    destruct (String.eqb a "0x01"); simpl; [intros H; injection H as <-; reflexivity|].
    discriminate.
  - exists res. split; [exact Hres|exact Hlen].
Defined.

(* ------------------------------------------------------------------ *)
(** ** [load_addresses] *)

Lemma existsb_eqb_In x l : existsb (String.eqb x) l = true <-> In x l.
Proof.
  rewrite existsb_exists. split.
  - intros [y [Hy E]]. apply String.eqb_eq in E. subst. exact Hy.
  - intros H. exists x. split; [exact H|apply String.eqb_refl].
Qed.

Lemma normalize_acc l acc :
  fold_left
    (fun out a => let a := strip a in
       if addr_re_match a then out ++ [("0x" ++ str_lower (drop2 a))%string] else out)
    l acc
  = acc ++ map (fun a => ("0x" ++ str_lower (drop2 (strip a)))%string) (filter addr_valid l).
Proof.
  revert acc. induction l as [|a l IH]; intros acc; simpl.
  - rewrite app_nil_r. reflexivity.
  - rewrite IH. unfold addr_valid. destruct (addr_re_match (strip a)); simpl.
    + rewrite <- app_assoc. reflexivity.
    + reflexivity.
Qed.

Lemma canon_lower s :
  addr_re_match s = true -> ("0x" ++ str_lower (drop2 s))%string = str_lower s.
Proof.
  destruct s as [|c1 [|c2 h]]; simpl; try discriminate.
  intros H. apply andb_true_iff in H as [H _]. apply andb_true_iff in H as [H1 H2].
  apply Ascii.eqb_eq in H1. apply Ascii.eqb_eq in H2. subst. reflexivity.
Qed.

Lemma dict_fromkeys_first l :
  dict_fromkeys l = rev (nodup string_dec (rev l)).
Proof.
  induction l as [|x l IH] using rev_ind; [reflexivity|].
  unfold dict_fromkeys in *. rewrite fold_left_app. simpl. rewrite IH.
  rewrite rev_app_distr. simpl.
  unfold set_add. destruct (in_dec string_dec x (rev l)) as [Hin|Hnin].
  - replace (existsb (String.eqb x) (rev (nodup string_dec (rev l)))) with true;
      [reflexivity|].
    symmetry. apply existsb_eqb_In. rewrite <- in_rev. apply nodup_In. exact Hin.
  - replace (existsb (String.eqb x) (rev (nodup string_dec (rev l)))) with false;
      [reflexivity|].
    symmetry. apply not_true_iff_false. rewrite existsb_eqb_In, <- in_rev, nodup_In.
    exact Hnin.
Qed.

Lemma rstrip_shape s :
  rstrip s = EmptyString \/
  exists p c, rstrip s = (p ++ String c EmptyString)%string /\ is_space c = false.
Proof.
  induction s as [|c r IH]; [left; reflexivity|]. simpl.
  destruct IH as [E|[p [c' [E Hc']]]]; rewrite E.
  - destruct (is_space c) eqn:Hc; simpl; [left; reflexivity|].
    right. exists EmptyString, c. split; [reflexivity|exact Hc].
  - assert (Hne : String.eqb (p ++ String c' EmptyString) "" = false)
      by (destruct p; reflexivity).
    rewrite Hne. simpl. right. exists (String c p), c'. split; [reflexivity|exact Hc'].
Qed.

Lemma append_char_inj p q c d :
  (p ++ String c EmptyString)%string = (q ++ String d EmptyString)%string -> c = d.
Proof.
  revert q. induction p as [|c0 p IH]; intros q; destruct q as [|d0 q]; simpl; intros H.
  - injection H as H1. exact H1.
  - injection H as H1 H2. destruct q; discriminate.
  - injection H as H1 H2. destruct p; discriminate.
  - injection H as H1 H2. exact (IH q H2).
Qed.

Lemma hex40_end_exact k h :
  hex40_end k h = true -> (forall p, h <> (p ++ String "010" EmptyString)%string) ->
  String.length h = k /\ all_chars is_hex h = true.
Proof.
  revert h. induction k as [|k IH]; intros h H Hnl.
  - destruct h as [|c [|c' r]]; [split; reflexivity| |discriminate].
    exfalso. simpl in H. apply Ascii.eqb_eq in H. subst. apply (Hnl EmptyString). reflexivity.
  - destruct h as [|c r]; [discriminate|]. simpl in H. apply andb_true_iff in H as [Hc Hr].
    destruct (IH r Hr) as [Hl Ha].
    { intros p Hp. apply (Hnl (String c p)). rewrite Hp. reflexivity. }
    simpl. rewrite Hl, Hc, Ha. split; reflexivity.
Qed.

Lemma ascii_lower_hex c : is_hex c = true -> is_lower_hex (ascii_lower c) = true.
Proof.
  destruct c as [[] [] [] [] [] [] [] []]; vm_compute; intros H; first [reflexivity|discriminate].
Qed.

Lemma str_lower_hex h :
  all_chars is_hex h = true ->
  String.length (str_lower h) = String.length h /\ all_chars is_lower_hex (str_lower h) = true.
Proof.
  induction h as [|c h IH]; simpl; [split; reflexivity|].
  intros H. apply andb_true_iff in H as [Hc Hh]. destruct (IH Hh) as [Hl Ha].
  rewrite Hl, Ha, (ascii_lower_hex c Hc). split; reflexivity.
Qed.

Lemma valid_lower_ok a : addr_valid a = true -> lower_addr_ok (str_lower (strip a)) = true.
Proof.
  unfold addr_valid. intros H.
  assert (Hshape := rstrip_shape (lstrip a)). fold (strip a) in Hshape.
  destruct (strip a) as [|c1 [|c2 h]] eqn:Es; try discriminate.
  simpl in H. apply andb_true_iff in H as [H Hh]. apply andb_true_iff in H as [H1 H2].
  apply Ascii.eqb_eq in H1. apply Ascii.eqb_eq in H2. subst c1 c2.
  destruct (hex40_end_exact 40 h Hh) as [Hl Ha].
  { intros p Hp. destruct Hshape as [E|[q [c [E Hc]]]]; [discriminate|].
    rewrite Hp in E.
    change (String "0" (String "x" (p ++ String "010" EmptyString)))%string
      with ((String "0" (String "x" p)) ++ String "010" EmptyString)%string in E.
    apply append_char_inj in E. subst c. discriminate. }
  destruct (str_lower_hex h Ha) as [Hl' Ha'].
  simpl. rewrite Hl', Hl, Ha'. reflexivity.
Qed.

Lemma add_lines_eq lines addrs :
  add_lines lines addrs = addrs ++ filter (fun s => negb (String.eqb s "")) (map strip lines).
Proof.
  unfold add_lines. revert addrs.
  induction lines as [|l lines IH]; intros addrs; cbn [fold_left map].
  - rewrite app_nil_r. reflexivity.
  - rewrite IH. cbn [filter]. destruct (String.eqb (strip l) ""); simpl; [reflexivity|].
    rewrite <- app_assoc. reflexivity.
Qed.

Lemma read_step_ok fs acc x :
  read_step fs (Ok acc) x =
  match fs x with
  | Some contents => lines <- contents ;; Ok (add_lines lines acc)
  | None => Ok (acc ++ [x])
  end.
Proof. reflexivity. Qed.

Lemma read_fold_raise fs l e : fold_left (read_step fs) l (Raise e) = Raise e.
Proof. induction l as [|x l IH]; [reflexivity|]. exact IH. Qed.

Lemma read_fold_shift fs l acc :
  fold_left (read_step fs) l (Ok acc) =
  r <- fold_left (read_step fs) l (Ok []) ;; Ok (acc ++ r).
Proof.
  revert acc. induction l as [|x l IH]; intros acc; cbn [fold_left].
  - cbn [bind]. rewrite app_nil_r. reflexivity.
  - rewrite !read_step_ok. destruct (fs x) as [[lines|e]|]; cbn [bind].
    + rewrite IH, (IH (add_lines lines [])), !add_lines_eq.
      destruct (fold_left (read_step fs) l (Ok [])); cbn [bind]; [|reflexivity].
      rewrite app_assoc. reflexivity.
    + rewrite !read_fold_raise. reflexivity.
    + rewrite IH, (IH ([] ++ [x])).
      destruct (fold_left (read_step fs) l (Ok [])); cbn [bind]; [|reflexivity].
      rewrite <- app_assoc. reflexivity.
Qed.

Lemma read_inputs_nil fs : read_inputs fs [] = Ok [].
Proof. reflexivity. Qed.

Lemma read_inputs_cons fs x l :
  read_inputs fs (x :: l) = c <- input_candidates fs x ;; r <- read_inputs fs l ;; Ok (c ++ r).
Proof.
  unfold read_inputs. cbn [fold_left].
  change (read_step fs (Ok []) x) with (input_candidates fs x).
  destruct (input_candidates fs x) as [c|e]; cbn [bind].
  - apply read_fold_shift.
  - apply read_fold_raise.
Qed.

Lemma read_inputs_app fs l1 l2 :
  read_inputs fs (l1 ++ l2) =
  r1 <- read_inputs fs l1 ;; r2 <- read_inputs fs l2 ;; Ok (r1 ++ r2).
Proof.
  induction l1 as [|x l1 IH]; cbn [app].
  - rewrite read_inputs_nil. cbn [bind]. destruct (read_inputs fs l2); reflexivity.
  - rewrite !read_inputs_cons, IH.
    destruct (input_candidates fs x); cbn [bind]; [|reflexivity].
    destruct (read_inputs fs l1); cbn [bind]; [|reflexivity].
    destruct (read_inputs fs l2); cbn [bind]; [|reflexivity].
    rewrite app_assoc. reflexivity.
Qed.




Lemma load_addresses_unfold fs inputs cands :
  read_inputs fs inputs = Ok cands ->
  load_addresses fs inputs =
  match map (fun a => str_lower (strip a)) (filter addr_valid cands) with
  | [] => Raise (SystemExit "no valid EVM addresses provided")
  | out => Ok (rev (nodup string_dec (rev out)))
  end.
Proof.
  intros Hr. unfold load_addresses. rewrite Hr. cbn [bind].
  unfold normalize. rewrite normalize_acc. simpl.
  rewrite (map_ext_in _ (fun a => str_lower (strip a))).
  - destruct (map _ _) as [|x l]; [reflexivity|]. rewrite dict_fromkeys_first. reflexivity.
  - intros a Ha. apply filter_In in Ha as [_ Ha]. apply canon_lower. exact Ha.
Qed.



(* ------------------------------------------------------------------ *)
(** ** The explorer client *)

Lemma status_is_1_iff st : status_is_1 st = true <-> st = Some (SStr "1").
Proof.
  destruct st as [[| | |s]|]; simpl; split; intros H; try discriminate.
  - apply String.eqb_eq in H. subst. reflexivity.
  - injection H as ->. reflexivity.
Qed.

Lemma int_char_space c : is_space c = true -> int_char c = true.
Proof. unfold int_char. intros ->. rewrite orb_true_r. reflexivity. Qed.

Lemma lstrip_junk s :
  all_chars int_char s = false -> all_chars int_char (lstrip s) = false.
Proof.
  induction s as [|c r IH]; simpl; [discriminate|].
  destruct (is_space c) eqn:Hc; [|simpl; tauto].
  rewrite (int_char_space c Hc). simpl. exact IH.
Qed.

Lemma rstrip_junk s :
  all_chars int_char s = false -> all_chars int_char (rstrip s) = false.
Proof.
  induction s as [|c r IH]; simpl; [discriminate|].
  intros H. apply andb_false_iff in H as [Hc|Hr].
  - destruct (is_space c) eqn:Hs; [rewrite (int_char_space c Hs) in Hc; discriminate|].
    rewrite andb_false_r. simpl. rewrite Hc. reflexivity.
  - specialize (IH Hr).
    destruct (rstrip r) as [|c' r'] eqn:E; [discriminate|].
    simpl. simpl in IH. rewrite IH, andb_false_r. reflexivity.
Qed.

Lemma parse_dec_junk s acc cnt au :
  all_chars int_char s = false -> parse_dec s acc cnt au = None.
Proof.
  revert acc cnt au. induction s as [|c r IH]; intros acc cnt au; simpl; [discriminate|].
  intros H. destruct (is_digit c) eqn:Hd.
  - assert (int_char c = true) as Hc by (unfold int_char; rewrite Hd; reflexivity).
    rewrite Hc in H. apply IH. exact H.
  - destruct (Ascii.eqb c "_"%char) eqn:Hu; simpl; [|reflexivity].
    assert (int_char c = true) as Hc
      by (unfold int_char; rewrite Hu; rewrite !orb_true_r; reflexivity).
    rewrite Hc in H. destruct au; [reflexivity|]. apply IH. exact H.
Qed.

(** [int(s)] raises [ValueError] on a string holding a character that is
    neither a digit, whitespace, an underscore nor a sign. *)
Lemma py_int_str_junk s :
  all_chars int_char s = false -> py_int_str s = Raise ValueError.
Proof.
  intros H. unfold py_int_str.
  assert (Ht : all_chars int_char (strip s) = false)
    by (unfold strip; apply rstrip_junk, lstrip_junk, H).
  destruct (strip s) as [|c r] eqn:Es; [discriminate|].
  assert (Hb : forall b, all_chars int_char b = false ->
            match parse_dec b 0 0 true with
            | None => Raise ValueError
            | Some (v, cnt) =>
                if (int_max_str_digits <? cnt)%nat then Raise ValueError else Ok (1 * v)
            end = Raise ValueError /\
            match parse_dec b 0 0 true with
            | None => Raise ValueError
            | Some (v, cnt) =>
                if (int_max_str_digits <? cnt)%nat then Raise ValueError else Ok (-1 * v)
            end = Raise (A := Z) ValueError)
    by (intros b Hb; rewrite (parse_dec_junk b 0 0 true Hb); split; reflexivity).
  destruct (Ascii.eqb c "-"%char) eqn:Hm.
  - apply Hb. simpl in Ht.
    replace (int_char c) with true in Ht
      by (unfold int_char; rewrite Hm; rewrite !orb_true_r; reflexivity).
    exact Ht.
  - destruct (Ascii.eqb c "+"%char) eqn:Hp; apply Hb; [|exact Ht].
    simpl in Ht.
    replace (int_char c) with true in Ht
      by (unfold int_char; rewrite Hp; rewrite !orb_true_r; reflexivity).
    exact Ht.
Qed.

Lemma main_loop_raise Float float_ge fb ft th addrs e :
  fold_left (batch_step Float float_ge fb ft th) addrs (Raise e) = Raise e.
Proof. induction addrs as [|a rest IH]; [reflexivity|exact IH]. Qed.

Section ExplorerProofs.

Variable Float : Type.
Variable wei_to_unit : Z -> Z -> Exc Float.
Variable requests_available : bool.
Variable http_balance : string -> Exc response.
Variable http_txlist : string -> Exc response.

Local Abbreviation balance := (fetch_balance Float wei_to_unit requests_available http_balance).
Local Abbreviation txlist := (fetch_txlist requests_available http_txlist).

Lemma fetch_txlist_status_not_1 addr data :
  requests_available = true -> http_txlist addr = Ok data ->
  resp_status data <> Some (SStr "1") ->
  fetch_txlist requests_available http_txlist addr = Ok [].
Proof.
  intros Hreq Hd Hs. unfold fetch_txlist, ensure_requests. rewrite Hreq, Hd. simpl.
  unfold txlist_of_response.
  destruct (status_is_1 (resp_status data)) eqn:Es; [|reflexivity].
  apply status_is_1_iff in Es. contradiction.
Qed.

(** With the explorer's ["status"] anything but the string ["1"] (its
    answer when an address has no transactions, or on an error), the
    address scores no transactions, no contracts and no active days, so it
    is eligible only under thresholds of 0 for all three. *)
Theorem score_address_status_not_1 float_ge addr th bal data :
  balance addr = Ok bal -> http_txlist addr = Ok data ->
  resp_status data <> Some (SStr "1") ->
  score_address Float float_ge balance txlist addr th =
  Ok (mk_result addr bal 0 0 0
        (float_ge bal (min_balance _ th) && (min_tx _ th <=? 0)
         && (min_contracts _ th <=? 0) && (min_days _ th <=? 0))).
Proof.
  intros Hb Hd Hs.
  assert (Hreq : requests_available = true).
  { unfold fetch_balance, ensure_requests in Hb.
    destruct requests_available; [reflexivity|discriminate]. }
  unfold score_address. rewrite Hb. simpl.
  rewrite (fetch_txlist_status_not_1 addr data Hreq Hd Hs). reflexivity.
Qed.

(** [fetch_balance] reads the ["result"] of the explorer's answer with
    [int(data.get("result", "0"))]: a missing result counts as 0 wei; a
    string result that is not a number (an error message) raises
    [ValueError]; a [null] or list result raises [TypeError]. *)
Theorem fetch_balance_result addr data :
  requests_available = true -> http_balance addr = Ok data ->
  (resp_result data = None -> balance addr = wei_to_unit 0 chain_decimals) /\
  (forall s, resp_result data = Some (RScalar (SStr s)) -> all_chars int_char s = false ->
     balance addr = Raise ValueError) /\
  (resp_result data = Some (RScalar SNull) \/ (exists l, resp_result data = Some (RList l)) ->
     balance addr = Raise TypeError).
Proof.
  intros Hreq Hd. unfold fetch_balance, ensure_requests. rewrite Hreq, Hd. simpl.
  unfold result_or_zero. split; [|split].
  - intros ->. reflexivity.
  - intros s' -> Hj. simpl. rewrite (py_int_str_junk s' Hj). reflexivity.
  - intros [->|[l ->]]; reflexivity.
Qed.

(** Without the [requests] module, the batch over a non-empty address list
    stops at the first address with [SystemExit] and yields no records:
    [except Exception] does not catch it. *)
Theorem main_loop_no_requests float_ge th a rest :
  requests_available = false ->
  main_loop Float float_ge balance txlist th (a :: rest) = Raise no_requests.
Proof.
  intros Hreq. unfold main_loop. cbn [fold_left].
  unfold batch_step at 2. cbn [bind].
  replace (score_address Float float_ge balance txlist a th) with (Raise (A := result Float) no_requests)
    by (unfold score_address, fetch_balance, ensure_requests; rewrite Hreq; reflexivity).
  apply main_loop_raise.
Qed.

End ExplorerProofs.

(* ------------------------------------------------------------------ *)
(** ** More on [load_addresses] *)

Lemma normalize_app l1 l2 : normalize (l1 ++ l2) = normalize l1 ++ normalize l2.
Proof.
  unfold normalize. rewrite !normalize_acc, filter_app, map_app. reflexivity.
Qed.

Lemma fromkeys_In l acc y :
  In y (fold_left (fun d k => set_add k d) l acc) <-> In y acc \/ In y l.
Proof.
  revert acc. induction l as [|x l IH]; intros acc; cbn [fold_left In]; [tauto|].
  rewrite IH, set_add_In. intuition (subst; auto).
Qed.

Lemma set_add_present x s : In x s -> set_add x s = s.
Proof.
  intros H. unfold set_add. apply existsb_eqb_In in H. rewrite H. reflexivity.
Qed.

Lemma set_add_absent x s : ~ In x s -> set_add x s = s ++ [x].
Proof.
  intros H. unfold set_add. rewrite <- existsb_eqb_In in H.
  apply not_true_iff_false in H. rewrite H. reflexivity.
Qed.

Lemma fromkeys_idem l acc :
  fold_left (fun d k => set_add k d) l acc =
  fold_left (fun d k => set_add k d) (dict_fromkeys l) acc.
Proof.
  unfold dict_fromkeys. induction l as [|x l IH] using rev_ind; [reflexivity|].
  rewrite !fold_left_app. cbn [fold_left]. rewrite IH.
  set (D := fold_left (fun d k => set_add k d) l []).
  destruct (in_dec string_dec x D) as [Hin|Hnin].
  - rewrite (set_add_present x D Hin). apply set_add_present.
    apply fromkeys_In. right. exact Hin.
  - rewrite (set_add_absent x D Hnin), fold_left_app. reflexivity.
Qed.

Lemma dict_fromkeys_app l1 l2 :
  dict_fromkeys (l1 ++ l2) = dict_fromkeys (dict_fromkeys l1 ++ dict_fromkeys l2).
Proof.
  assert (Happ : forall m1 m2, dict_fromkeys (m1 ++ m2) =
            fold_left (fun d k => set_add k d) m2 (dict_fromkeys m1))
    by (intros m1 m2; unfold dict_fromkeys; apply fold_left_app).
  assert (Hd : dict_fromkeys (dict_fromkeys l1) = dict_fromkeys l1)
    by (symmetry; apply fromkeys_idem).
  rewrite !Happ, Hd. apply fromkeys_idem.
Qed.

Lemma load_addresses_ok fs inputs out :
  load_addresses fs inputs = Ok out ->
  exists cands, read_inputs fs inputs = Ok cands /\
    normalize cands <> [] /\ out = dict_fromkeys (normalize cands).
Proof.
  unfold load_addresses. destruct (read_inputs fs inputs) as [c|e]; cbn [bind]; [|discriminate].
  intros H. exists c. split; [reflexivity|].
  destruct (normalize c) as [|x l]; [discriminate|].
  injection H as <-. split; [discriminate|reflexivity].
Qed.

(** Loading several inputs at once is loading each and merging the two
    address lists with [dict.fromkeys]: duplicates across files and
    arguments are dropped, first occurrence kept. *)
Theorem load_addresses_app fs xs ys ox oy :
  load_addresses fs xs = Ok ox -> load_addresses fs ys = Ok oy ->
  load_addresses fs (xs ++ ys) = Ok (dict_fromkeys (ox ++ oy)).
Proof.
  intros Hx Hy. apply load_addresses_ok in Hx as [cx [Hrx [Hnx ->]]].
  apply load_addresses_ok in Hy as [cy [Hry [_ ->]]].
  unfold load_addresses. rewrite read_inputs_app, Hrx, Hry. cbn [bind].
  rewrite normalize_app.
  destruct (normalize cx) as [|a nx] eqn:Enx; [contradiction|].
  rewrite <- app_comm_cons. f_equal. rewrite app_comm_cons.
  apply dict_fromkeys_app.
Qed.

Lemma lower_hex_char c :
  is_lower_hex c = true -> is_space c = false /\ is_hex c = true /\ ascii_lower c = c.
Proof.
  destruct c as [[] [] [] [] [] [] [] []]; vm_compute; intros H;
    first [discriminate | repeat split].
Qed.

Lemma all_lower_hex_fix h :
  all_chars is_lower_hex h = true ->
  rstrip h = h /\ str_lower h = h /\ hex40_end (String.length h) h = true.
Proof.
  induction h as [|c r IH]; [repeat split|].
  simpl. intros H. apply andb_true_iff in H as [Hc Hr].
  destruct (lower_hex_char c Hc) as [Hs [Hh Hl]]. destruct (IH Hr) as [R1 [R2 R3]].
  rewrite R1, Hs, andb_false_r, Hl, R2, Hh, R3. repeat split.
Qed.

Lemma rstrip_nonspace c r : is_space c = false -> rstrip (String c r) = String c (rstrip r).
Proof. intros H. simpl. rewrite H, andb_false_r. reflexivity. Qed.

Lemma lower_ok_fix x :
  lower_addr_ok x = true -> strip x = x /\ addr_re_match x = true /\ str_lower x = x.
Proof.
  destruct x as [|c1 [|c2 h]]; try discriminate.
  intros H. simpl in H. apply andb_true_iff in H as [H Hh]. apply andb_true_iff in H as [H Hl].
  apply andb_true_iff in H as [H1 H2].
  apply Ascii.eqb_eq in H1. apply Ascii.eqb_eq in H2. subst c1 c2.
  apply Nat.eqb_eq in Hl. destruct (all_lower_hex_fix h Hh) as [R1 [R2 R3]].
  rewrite Hl in R3. unfold strip.
  change (addr_re_match (String "0" (String "x" h)))
    with (Ascii.eqb "0" "0" && Ascii.eqb "x" "x" && hex40_end 40 h).
  change (lstrip (String "0" (String "x" h))) with (String "0" (String "x" h)).
  rewrite !rstrip_nonspace by reflexivity. rewrite R1, R3.
  change (str_lower (String "0" (String "x" h))) with (String "0" (String "x" (str_lower h))).
  rewrite R2. repeat split.
Qed.

Lemma read_inputs_no_files fs l :
  (forall x, In x l -> fs x = None) -> read_inputs fs l = Ok l.
Proof.
  induction l as [|x l IH]; intros H; [reflexivity|].
  rewrite read_inputs_cons. unfold input_candidates.
  rewrite (H x (or_introl eq_refl)). cbn [bind].
  rewrite IH; [reflexivity|]. intros y Hy. apply H. right. exact Hy.
Qed.

Lemma load_addresses_ok_shape fs inputs out :
  load_addresses fs inputs = Ok out ->
  out <> [] /\ NoDup out /\ (forall x, In x out -> lower_addr_ok x = true).
Proof.
  intros H. destruct (read_inputs fs inputs) as [c|e] eqn:Hr;
    [|unfold load_addresses in H; rewrite Hr in H; discriminate].
  revert H. rewrite (load_addresses_unfold fs inputs c Hr).
  destruct (map _ (filter addr_valid c)) as [|v V] eqn:Em;
    [discriminate|].
  intros H. injection H as <-.
  assert (Hmem : forall x, In x (rev (nodup string_dec (rev V ++ [v]))) <-> In x (v :: V)).
  { intros x. rewrite <- in_rev, nodup_In.
    change (rev V ++ [v]) with (rev (v :: V)). rewrite <- in_rev. reflexivity. }
  split; [|split].
  - intros Hn. apply (in_nil (a := v)). rewrite <- Hn. apply Hmem. left. reflexivity.
  - apply NoDup_rev, NoDup_nodup.
  - intros x Hx. apply Hmem in Hx. rewrite <- Em in Hx.
    apply in_map_iff in Hx as [a [<- Ha]]. apply filter_In in Ha as [_ Ha].
    apply valid_lower_ok. exact Ha.
Qed.

(** Loading is idempotent: the address list [load_addresses] returns,
    passed back as arguments (none of them naming a file), loads to
    itself. *)
Theorem load_addresses_idempotent fs fs' inputs out :
  load_addresses fs inputs = Ok out -> (forall x, In x out -> fs' x = None) ->
  load_addresses fs' out = Ok out.
Proof.
  intros H Hnf. destruct (load_addresses_ok_shape fs inputs out H) as [Hne [Hnd Hok]].
  rewrite (load_addresses_unfold fs' out out (read_inputs_no_files fs' out Hnf)).
  assert (Hf : filter addr_valid out = out).
  { apply forallb_filter_id, forallb_forall. intros x Hx.
    destruct (lower_ok_fix x (Hok x Hx)) as [Hs [Hm _]].
    unfold addr_valid. rewrite Hs. exact Hm. }
  assert (Hm : map (fun a => str_lower (strip a)) out = out).
  { rewrite <- map_id. apply map_ext_in. intros x Hx.
    destruct (lower_ok_fix x (Hok x Hx)) as [Hs [_ Hl]]. rewrite Hs. exact Hl. }
  rewrite Hf, Hm. destruct out as [|v V]; [contradiction|].
  rewrite nodup_fixed_point, rev_involutive; [reflexivity|].
  apply NoDup_rev. exact Hnd.
Qed.

(* ------------------------------------------------------------------ *)
(** ** More on [analyze_interactions] *)

Lemma scan_contracts_tx_ok txs acc cs :
  scan_contracts txs acc = Ok cs -> forall t, In t txs -> tx_ok t.
Proof.
  revert acc. induction txs as [|t rest IH]; intros acc H t' Ht'; [destruct Ht'|].
  simpl in H. destruct (to_field t) as [to|e] eqn:Eto; simpl in H; [|discriminate].
  destruct (String.prefix "0x" to) eqn:Ep.
  - destruct (input_len t) as [n|e] eqn:En; simpl in H; [|discriminate].
    destruct Ht' as [<-|Ht']; [|exact (IH _ H t' Ht')].
    exists to. split; [exact Eto|]. intros _. exists n. exact En.
  - destruct Ht' as [<-|Ht']; [|exact (IH _ H t' Ht')].
    exists to. split; [exact Eto|]. intros Hp. congruence.
Qed.

Lemma scan_contracts_of_ok txs acc :
  (forall t, In t txs -> tx_ok t) -> exists cs, scan_contracts txs acc = Ok cs.
Proof.
  revert acc. induction txs as [|t rest IH]; intros acc Hall; [eexists; reflexivity|].
  destruct (Hall t (or_introl eq_refl)) as [to [Eto Hin]].
  assert (Hr : forall t', In t' rest -> tx_ok t') by (intros t' Ht'; apply Hall; right; exact Ht').
  simpl. rewrite Eto. simpl. destruct (String.prefix "0x" to) eqn:Ep.
  - destruct (Hin eq_refl) as [n En]. rewrite En. simpl. apply IH. exact Hr.
  - apply IH. exact Hr.
Qed.

Lemma contract_hit_perm txs txs' x :
  Permutation txs txs' -> contract_hit txs x -> contract_hit txs' x.
Proof.
  intros P [t [Ht R]]. exists t. split; [|exact R]. exact (Permutation_in t P Ht).
Qed.

Lemma scan_contracts_perm txs txs' cs :
  Permutation txs txs' -> scan_contracts txs [] = Ok cs ->
  exists cs', scan_contracts txs' [] = Ok cs' /\ List.length cs' = List.length cs.
Proof.
  intros P H.
  destruct (scan_contracts_of_ok txs' [])as [cs' H'].
  { intros t Ht. apply (scan_contracts_tx_ok txs [] cs H).
    apply (Permutation_in t (Permutation_sym P) Ht). }
  exists cs'. split; [exact H'|].
  destruct (scan_contracts_set txs [] cs H (NoDup_nil _)) as [Nd Hin].
  destruct (scan_contracts_set txs' [] cs' H' (NoDup_nil _)) as [Nd' Hin'].
  apply Nat.le_antisymm; apply NoDup_incl_length; try assumption; intros x Hx.
  - apply Hin. right. apply (contract_hit_perm txs' txs x (Permutation_sym P)).
    apply Hin' in Hx as [[]|Hx]. exact Hx.
  - apply Hin'. right. apply (contract_hit_perm txs txs' x P).
    apply Hin in Hx as [[]|Hx]. exact Hx.
Qed.

Lemma span_days_inner first mid mid' last :
  span_days (first :: mid ++ [last]) empty_tx = span_days (first :: mid' ++ [last]) empty_tx.
Proof.
  unfold span_days. cbn [List.hd].
  change (first :: mid ++ [last]) with ((first :: mid) ++ [last]).
  change (first :: mid' ++ [last]) with ((first :: mid') ++ [last]).
  rewrite !last_last. reflexivity.
Qed.

(** Reordering the transactions between the first and the last one
    changes none of the three metrics: the count is the length, the
    contracts form a set, and the span reads only the two ends. *)
Theorem analyze_inner_permutation first mid mid' last r :
  Permutation mid mid' ->
  analyze_interactions (first :: mid ++ [last]) = Ok r ->
  analyze_interactions (first :: mid' ++ [last]) = Ok r.
Proof.
  intros P H. destruct r as [[n u] d].
  apply analyze_ok_inv in H as [-> [_ Hcons]].
  destruct (Hcons ltac:(discriminate)) as [cs [Hs [-> ->]]].
  assert (P' : Permutation (first :: mid ++ [last]) (first :: mid' ++ [last]))
    by (apply perm_skip, Permutation_app_tail, P).
  destruct (scan_contracts_perm _ _ cs P' Hs) as [cs' [Hs' Hl]].
  rewrite (analyze_cons_ok first (mid' ++ [last]) cs' Hs').
  rewrite Hl, (Permutation_length P'), (span_days_inner first mid' mid last).
  reflexivity.
Qed.

Lemma to_field_fields t t' : tx_fields t = tx_fields t' -> to_field t = to_field t'.
Proof. unfold tx_fields, to_field. intros H. injection H as -> _. reflexivity. Qed.

Lemma input_len_fields t t' : tx_fields t = tx_fields t' -> input_len t = input_len t'.
Proof. unfold tx_fields, input_len. intros H. injection H as _ ->. reflexivity. Qed.

Lemma scan_contracts_fields txs txs' acc :
  map tx_fields txs = map tx_fields txs' -> scan_contracts txs acc = scan_contracts txs' acc.
Proof.
  revert txs' acc. induction txs as [|t rest IH]; intros [|t' rest'] acc H;
    try discriminate; [reflexivity|].
  pose proof (f_equal (List.hd (None, None)) H) as Ht.
  pose proof (f_equal (@tl _) H) as Hr. cbn [List.hd tl map] in Ht, Hr. simpl.
  rewrite (to_field_fields t t' Ht), (input_len_fields t t' Ht).
  destruct (to_field t') as [to|e]; [|reflexivity]. simpl.
  destruct (String.prefix "0x" to).
  - destruct (input_len t') as [n|e]; [|reflexivity]. simpl. apply IH. exact Hr.
  - apply IH. exact Hr.
Qed.

(** Only the timestamps of the first and the last transaction are read:
    changing the timestamps of the others, even to values [int()] rejects
    or to missing keys, leaves the result (and any exception) unchanged. *)
Theorem analyze_inner_timestamps first mid mid' last :
  map tx_fields mid = map tx_fields mid' ->
  analyze_interactions (first :: mid ++ [last]) = analyze_interactions (first :: mid' ++ [last]).
Proof.
  intros H.
  assert (Hf : map tx_fields (first :: mid ++ [last]) = map tx_fields (first :: mid' ++ [last]))
    by (cbn [map]; rewrite !map_app, H; reflexivity).
  assert (Hl : List.length (first :: mid ++ [last]) = List.length (first :: mid' ++ [last]))
    by (rewrite <- (length_map tx_fields), Hf, length_map; reflexivity).
  unfold analyze_interactions. rewrite Hl, (scan_contracts_fields _ _ [] Hf),
    (span_days_inner first mid mid' last).
  reflexivity.
Qed.

(* ------------------------------------------------------------------ *)
(** ** More on [score_address] *)

(** Relaxing the thresholds never revokes eligibility: an address eligible
    under [th] is scored with the same balance and metrics, and eligible,
    under thresholds [th'] that are each at most as strict. *)
Theorem score_address_relax Float float_ge fb ft addr th th' r :
  (forall b, float_ge b (min_balance _ th) = true -> float_ge b (min_balance _ th') = true) ->
  min_tx _ th' <= min_tx _ th -> min_contracts _ th' <= min_contracts _ th ->
  min_days _ th' <= min_days _ th ->
  score_address Float float_ge fb ft addr th = Ok r -> r_eligible _ r = true ->
  score_address Float float_ge fb ft addr th' =
  Ok (mk_result (r_address _ r) (r_balance _ r) (r_tx_count _ r) (r_contracts _ r)
        (r_active_days _ r) true).
Proof.
  intros Hb Ht Hc Hd. unfold score_address.
  destruct (fb addr) as [bal|e]; simpl; [|discriminate].
  destruct (ft addr) as [txs|e]; simpl; [|discriminate].
  destruct (analyze_interactions txs) as [[[n u] d]|e]; simpl; [|discriminate].
  intros H. injection H as <-. simpl. intros E.
  apply andb_true_iff in E as [E E4]. apply andb_true_iff in E as [E E3].
  apply andb_true_iff in E as [E1 E2].
  apply Z.leb_le in E2, E3, E4.
  assert (F2 : (min_tx _ th' <=? n) = true) by (apply Z.leb_le; lia).
  assert (F3 : (min_contracts _ th' <=? u) = true) by (apply Z.leb_le; lia).
  assert (F4 : (min_days _ th' <=? d) = true) by (apply Z.leb_le; lia).
  rewrite (Hb bal E1), F2, F3, F4. reflexivity.
Qed.

(* ------------------------------------------------------------------ *)
(** ** Concrete instances of the properties above *)

Lemma score_address_status_not_1_witness :
  score_address Z zge (fetch_balance Z wei_to_milli true (fun _ => Ok balance_response))
    (fetch_txlist true (fun _ => Ok no_tx_response)) "0xa"%string (mk_thresholds 50 5 3 7)
  = Ok (mk_result "0xa"%string 250 0 0 0 false).
Proof.
  apply (score_address_status_not_1 Z wei_to_milli true (fun _ => Ok balance_response)
           (fun _ => Ok no_tx_response) zge "0xa"%string (mk_thresholds 50 5 3 7) 250 no_tx_response).
  - vm_compute. reflexivity.
  - reflexivity.
  - vm_compute. discriminate.
Defined.

Lemma fetch_balance_result_witness :
  fetch_balance Z wei_to_milli true (fun _ => Ok error_response) "0xa"%string = Raise ValueError.
Proof.
  apply (proj1 (proj2 (fetch_balance_result Z wei_to_milli true (fun _ => Ok error_response)
                         "0xa"%string error_response eq_refl eq_refl)) "Invalid API Key"%string);
    vm_compute; reflexivity.
Defined.

Lemma main_loop_no_requests_witness :
  main_loop Z zge (fetch_balance Z wei_to_milli false (fun _ => Ok balance_response))
    (fetch_txlist false (fun _ => Ok no_tx_response)) (mk_thresholds 50 5 3 7) ["0xa"%string; "0xb"%string]
  = Raise no_requests.
Proof.
  apply (main_loop_no_requests Z wei_to_milli false (fun _ => Ok balance_response)
           (fun _ => Ok no_tx_response) zge (mk_thresholds 50 5 3 7) "0xa"%string ["0xb"%string]).
  reflexivity.
Defined.

Lemma load_addresses_app_witness :
  load_addresses no_files
    (["0xABCDEFabcdef0123456789abcdefABCDEF012345"%string] ++
     ["0x0000000000000000000000000000000000000001"%string; " 0xabcdefabcdef0123456789abcdefabcdef012345 "%string])
  = Ok (dict_fromkeys (["0xabcdefabcdef0123456789abcdefabcdef012345"%string] ++
                       ["0x0000000000000000000000000000000000000001"%string;
                        "0xabcdefabcdef0123456789abcdefabcdef012345"%string])).
Proof.
  apply load_addresses_app; vm_compute; reflexivity.
Defined.

Lemma load_addresses_idempotent_witness :
  load_addresses no_files ["0xabcdefabcdef0123456789abcdefabcdef012345"%string]
  = Ok ["0xabcdefabcdef0123456789abcdefabcdef012345"%string].
Proof.
  apply (load_addresses_idempotent no_files no_files
           ["0xABCDEFabcdef0123456789abcdefABCDEF012345"%string; "junk"%string]).
  - vm_compute. reflexivity.
  - intros x _. reflexivity.
Defined.

Lemma analyze_inner_permutation_witness :
  analyze_interactions
    (stx "0xAAA"%string "0x1234"%string "0"%string :: [stx "0xCCC"%string "0x"%string "200"%string; stx "0xBBB"%string "0xabcd"%string "100"%string]
       ++ [stx "0xaaa"%string "0x12"%string "864000"%string])
  = Ok (4, 2, 10).
Proof.
  apply (analyze_inner_permutation (stx "0xAAA"%string "0x1234"%string "0"%string)
           [stx "0xBBB"%string "0xabcd"%string "100"%string; stx "0xCCC"%string "0x"%string "200"%string]).
  - apply perm_swap.
  - vm_compute. reflexivity.
Defined.

Lemma analyze_inner_timestamps_witness :
  analyze_interactions
    (stx "0xAAA"%string "0x1234"%string "0"%string :: [stx "0xBBB"%string "0xabcd"%string "100"%string] ++ [stx "0xaaa"%string "0x12"%string "864000"%string])
  = analyze_interactions
    (stx "0xAAA"%string "0x1234"%string "0"%string :: [mk_tx (Some (JStr "0xBBB"%string)) (Some (JStr "0xabcd"%string)) None]
       ++ [stx "0xaaa"%string "0x12"%string "864000"%string]).
Proof.
  apply analyze_inner_timestamps. reflexivity.
Defined.

Lemma score_address_relax_witness :
  score_address Z zge (fun _ => Ok 1) (fun _ => Ok [stx "0xAAA"%string "0x1234"%string "1000"%string]) "0xa"%string
    (mk_thresholds 0 0 0 0)
  = Ok (mk_result "0xa"%string 1 1 1 1 true).
Proof.
  apply (score_address_relax Z zge (fun _ => Ok 1) (fun _ => Ok [stx "0xAAA"%string "0x1234"%string "1000"%string])
           "0xa"%string (mk_thresholds 1 1 1 1) (mk_thresholds 0 0 0 0) (mk_result "0xa"%string 1 1 1 1 true)).
  - intros b H. unfold zge in *. simpl in *. apply Z.leb_le in H. apply Z.leb_le. lia.
  - simpl. lia.
  - simpl. lia.
  - simpl. lia.
  - vm_compute. reflexivity.
  - reflexivity.
Defined.
